(** * DeltaDrive: vehicle matching, fleet cache and review requests

    A shallow embedding of [src/model/vehicle/vehicle.service.ts] and of
    [src/model/review/review.service.ts], and the properties of the
    matching engine, of the cache backed registry and of review creation.

    Conventions.
    - A TypeScript [number] is an exact rational ([Q]); rounding and
      infinities are outside the model.  Numbers are compared with [Qeq]
      ([===] on numbers is [Qeq_bool]).  NaN arises in one place only, where
      the [rate] of a review is added although the review has none; the
      score and the average rating are therefore of type [numberOrNaN].
    - An [async] method is a tree of awaited collaborator calls ([Async]);
      it is run against a handler that answers every call from a state of
      the collaborators, and the calls are logged in the order they are made.
    - Records are values: the mutation of an argument ([vehicle.booked = true])
      is the construction of the updated record. *)

From Stdlib Require Import QArith ZArith String List Bool Arith Lia.
From Stdlib Require Import Sorted Permutation Qabs.
Import ListNotations.

Local Open Scope Q_scope.

(** ** Data model *)

Definition number := Q.

(** A number that may be NaN ([None]). *)
Definition numberOrNaN := option number.

(** Milliseconds since the epoch, what [new Date()] carries. *)
Definition Date := Z.

Module Position.
Record t : Type := mk
  { latitude : number
  ; longitude : number }.
End Position.

(** The fields of [Vehicle] that the two services read or write. *)
Record Vehicle : Type := mkVehicle
  { uuid : string
  ; brand : string
  ; firstName : string
  ; lastName : string
  ; latitude : number
  ; longitude : number
  ; startPrice : number
  ; pricePerKM : number
  ; booked : bool }.

(** The three assignments the service makes to a field of a vehicle. *)
Definition setBooked (b : bool) (v : Vehicle) : Vehicle :=
  {| uuid := uuid v; brand := brand v
   ; firstName := firstName v; lastName := lastName v
   ; latitude := latitude v; longitude := longitude v
   ; startPrice := startPrice v; pricePerKM := pricePerKM v
   ; booked := b |}.

Definition setLatitude (x : number) (v : Vehicle) : Vehicle :=
  {| uuid := uuid v; brand := brand v
   ; firstName := firstName v; lastName := lastName v
   ; latitude := x; longitude := longitude v
   ; startPrice := startPrice v; pricePerKM := pricePerKM v
   ; booked := booked v |}.

Definition setLongitude (x : number) (v : Vehicle) : Vehicle :=
  {| uuid := uuid v; brand := brand v
   ; firstName := firstName v; lastName := lastName v
   ; latitude := latitude v; longitude := x
   ; startPrice := startPrice v; pricePerKM := pricePerKM v
   ; booked := booked v |}.

(** A vehicle is passed where a [Position] is expected; only its two
    coordinates are seen through that type. *)
Definition asPosition (v : Vehicle) : Position.t :=
  Position.mk (latitude v) (longitude v).

(** A review as the driver sees it; [rate] is the field the matching loop
    adds up.  A review has its rating only once the requester has given it:
    [rate] is [None] for a review that carries none ([undefined]). *)
Record VehicleReviewDto : Type := mkVehicleReviewDto
  { rate : option number
  ; comment : string }.

Record VehicleOffer : Type := mkVehicleOffer
  { vehicle : Vehicle
  ; distanceToDriver : number
  ; price : number
  ; reviews : list VehicleReviewDto
  ; averageRating : numberOrNaN }.

(** The review document; [rate] and [comment] are optional in it. *)
Module Review.
Record t : Type := mk
  { uuid : string
  ; email : string
  ; vehicleId : string
  ; dateOfRide : Date
  ; price : number
  ; completed : bool
  ; rate : option number
  ; comment : option string }.
End Review.

(** The element of [vehicleDistances]: the object literal
    [{ vehicle, distance }]. *)
Record VehicleDistance : Type := mkVehicleDistance
  { vd_vehicle : Vehicle
  ; distance : number }.

(** ** Awaited calls *)

(** The calls the two services make on their collaborators: the cache
    service, the two mongoose models, the review service, the guid service
    and the clock.  The index is the type of the answer. *)
Inductive Cmd : Type -> Type :=
| CacheIsEmpty : Cmd bool
| CacheAddAll (vehicles : list Vehicle) : Cmd unit
| CacheGetAll : Cmd (list Vehicle)
| CacheGet (id : string) : Cmd (option Vehicle)
| CacheSet (v : Vehicle) : Cmd unit
| VehicleFind : Cmd (list Vehicle)
| VehicleFindOne (id : string) : Cmd (option Vehicle)
| VehicleUpdateOne (id : string) (v : Vehicle) : Cmd unit
| GetVehicleReviews (id : string) : Cmd (list VehicleReviewDto)
| GenerateGuid : Cmd string
| NewDate : Cmd Date
| ReviewCreate (r : Review.t) : Cmd unit.

(** A logged call, without its answer. *)
Inductive Call : Type :=
| call {X : Type} (c : Cmd X).

Inductive Async (R : Type) : Type :=
| Return (r : R)
| Await {X : Type} (c : Cmd X) (k : X -> Async R).

Arguments Return {R} r.
Arguments Await {R X} c k.

Fixpoint bind {A B : Type} (p : Async A) (f : A -> Async B) : Async B :=
  match p with
  | Return a => f a
  | Await c k => Await c (fun x => bind (k x) f)
  end.

Definition await {X : Type} (c : Cmd X) : Async X := Await c Return.

Declare Scope async_scope.
Delimit Scope async_scope with async.
Notation "x <- p ;; q" := (bind p (fun x => q))
  (at level 61, p at next level, right associativity) : async_scope.
Notation "p ;; q" := (bind p (fun _ => q))
  (at level 61, right associativity) : async_scope.

(** Running a method: the answer, the state of the collaborators afterwards
    and the calls in the order they were made. *)
Section Run.
Context {W : Type}.
Variable handle : forall X : Type, Cmd X -> W -> X * W.

Fixpoint run {R : Type} (p : Async R) (w : W) : R * W * list Call :=
  match p with
  | Return r => (r, w, [])
  | Await c k =>
      let (x, w1) := handle _ c w in
      let '(r, w2, tr) := run (k x) w1 in
      (r, w2, call c :: tr)
  end.

Definition result {R : Type} (p : Async R) (w : W) : R := fst (fst (run p w)).
Definition final {R : Type} (p : Async R) (w : W) : W := snd (fst (run p w)).
Definition trace {R : Type} (p : Async R) (w : W) : list Call := snd (run p w).
End Run.

(** ** [Array.prototype.sort] with a comparator *)

(** The sort is stable and puts [a] before [b] when the comparator is
    negative.  For a comparator that orders the elements consistently, as
    the difference of two distances does, the stable sorted arrangement is
    unique, so that the insertion sort below yields the array the engine
    yields. *)
Section ArraySort.
Context {A : Type}.
Variable compareFn : A -> A -> number.

Fixpoint array_insert (x : A) (l : list A) : list A :=
  match l with
  | [] => [x]
  | y :: l' =>
      if Qle_bool (compareFn x y) 0 then x :: l
      else y :: array_insert x l'
  end.

Definition array_sort (l : list A) : list A :=
  fold_right array_insert [] l.
End ArraySort.

(** ** VehicleService *)

Section VehicleService.
(** [positionService.calculateDistance], a pure function of the two
    positions. *)
Variable calculateDistance : Position.t -> Position.t -> number.

Definition getAllVehicles : Async (list Vehicle) :=
  (empty <- await CacheIsEmpty ;;
   if (empty : bool) then
     vehicles <- await VehicleFind ;;
     await (CacheAddAll vehicles) ;;
     Return vehicles
   else
     await CacheGetAll)%async.

Definition getVehicle (id : string) : Async (option Vehicle) :=
  (empty <- await CacheIsEmpty ;;
   if (empty : bool) then await (VehicleFindOne id)
   else await (CacheGet id))%async.

(** [score += review.rate]: adding [undefined] to a number gives NaN, and
    NaN stays NaN whatever is added to it. *)
Definition addRate (score : numberOrNaN) (rate : option number) : numberOrNaN :=
  match score, rate with
  | Some s, Some r => Some (s + r)
  | _, _ => None
  end.

(** The inner loop: [score += review.rate] over the reviews. *)
Definition scoreOf (reviews : list VehicleReviewDto) : numberOrNaN :=
  fold_left (fun score review => addRate score (rate review)) reviews (Some 0).

(** [score / reviews.length]; NaN divided by a number is NaN. *)
Definition divideBy (score : numberOrNaN) (n : nat) : numberOrNaN :=
  match score with
  | Some s => Some (s / inject_Z (Z.of_nat n))
  | None => None
  end.

Definition averageRatingOf (reviews : list VehicleReviewDto) : numberOrNaN :=
  if (0 <? length reviews)%nat
  then divideBy (scoreOf reviews) (length reviews)
  else Some 0.

(** The object pushed on [closestVehicles]. *)
Definition offerOf (distanceToDestination : number)
    (vehicleDistance : VehicleDistance)
    (reviews : list VehicleReviewDto) : VehicleOffer :=
  {| vehicle := vd_vehicle vehicleDistance
   ; distanceToDriver := distance vehicleDistance
   ; price := distanceToDestination * pricePerKM (vd_vehicle vehicleDistance)
              + startPrice (vd_vehicle vehicleDistance)
   ; reviews := reviews
   ; averageRating := averageRatingOf reviews |}.

(** [closestVehicles.length === count] *)
Definition lengthIs (closestVehicles : list VehicleOffer) (count : number) : bool :=
  Qeq_bool (inject_Z (Z.of_nat (length closestVehicles))) count.

(** The [for ... of vehicleDistances] loop, from the state
    [closestVehicles] on the remaining elements. *)
Fixpoint closestLoop (count distanceToDestination : number)
    (vehicleDistances : list VehicleDistance)
    (closestVehicles : list VehicleOffer) : Async (list VehicleOffer) :=
  match vehicleDistances with
  | [] => Return closestVehicles
  | vehicleDistance :: rest =>
      if booked (vd_vehicle vehicleDistance) then
        closestLoop count distanceToDestination rest closestVehicles
      else
        (reviews <- await (GetVehicleReviews (uuid (vd_vehicle vehicleDistance))) ;;
         let closestVehicles' :=
           closestVehicles ++ [offerOf distanceToDestination vehicleDistance reviews] in
         if lengthIs closestVehicles' count then Return closestVehicles'
         else closestLoop count distanceToDestination rest closestVehicles')%async
  end.

Definition compareDistance (a b : VehicleDistance) : number :=
  distance a - distance b.

Definition distancesFrom (userPosition : Position.t) (vehicles : list Vehicle)
    : list VehicleDistance :=
  map (fun vehicle =>
         {| vd_vehicle := vehicle
          ; distance := calculateDistance userPosition (asPosition vehicle) |})
      vehicles.

Definition findClosestVehicles (userPosition : Position.t)
    (vehicles : list Vehicle) (count distanceToDestination : number)
    : Async (list VehicleOffer) :=
  let vehicleDistances :=
    array_sort compareDistance (distancesFrom userPosition vehicles) in
  closestLoop count distanceToDestination vehicleDistances [].

Definition book (vehicle : Vehicle) : Async unit :=
  let vehicle := setBooked true vehicle in
  (await (CacheSet vehicle) ;;
   await (VehicleUpdateOne (uuid vehicle) vehicle))%async.

Definition finishRide (vehicle : Vehicle) (newLocation : Position.t) : Async unit :=
  let vehicle := setLongitude (Position.longitude newLocation) vehicle in
  let vehicle := setLatitude (Position.latitude newLocation) vehicle in
  let vehicle := setBooked false vehicle in
  (await (CacheSet vehicle) ;;
   await (VehicleUpdateOne (uuid vehicle) vehicle))%async.
End VehicleService.

(** ** ReviewService *)

(** The object handed to [reviewModel.create] names neither [rate] nor
    [comment]. *)
Definition insertReviewRequest (email vehicleId : string) (price : number)
    : Async unit :=
  (uuid <- await GenerateGuid ;;
   dateOfRide <- await NewDate ;;
   await (ReviewCreate
            {| Review.uuid := uuid
             ; Review.email := email
             ; Review.vehicleId := vehicleId
             ; Review.dateOfRide := dateOfRide
             ; Review.price := price
             ; Review.completed := false
             ; Review.rate := None
             ; Review.comment := None |}))%async.

(** ** The collaborators *)

(** The class [CacheService] (imported from [../../cache]) is not part of
    the sources; the module below follows the spec's description of it. *)
Module CacheService.
(** Modelled from the spec: the cache is an in-process mapping from vehicle
    identifier to vehicle record, with a sentinel that tells "never loaded"
    from "loaded with zero vehicles".  The entries are kept in insertion
    order. *)
Record t : Type := mk
  { loaded : bool
  ; entries : list (string * Vehicle) }.

(** Modelled from the spec: the cache before its first load. *)
Definition fresh : t := {| loaded := false; entries := [] |}.

(** Modelled from the spec: "upsert a single record", the record of the
    same identifier is replaced, a new identifier is added. *)
Fixpoint upsert (v : Vehicle) (es : list (string * Vehicle))
    : list (string * Vehicle) :=
  match es with
  | [] => [(uuid v, v)]
  | (k, x) :: es' =>
      if String.eqb k (uuid v) then (k, v) :: es'
      else (k, x) :: upsert v es'
  end.

(** Modelled from the spec: [isEmpty] is "true iff the cache has never been
    populated (distinct from populated with zero entries)". *)
Definition isEmpty (c : t) : bool := negb (loaded c).

(** Modelled from the spec: [addAll] "bulk-loads records, transitions state
    to loaded even if the input set is empty". *)
Definition addAll (vehicles : list Vehicle) (c : t) : t :=
  {| loaded := true
   ; entries := fold_left (fun es v => upsert v es) vehicles (entries c) |}.

(** Modelled from the spec: [getAll] "returns the current loaded set". *)
Definition getAll (c : t) : list Vehicle := map snd (entries c).

(** Modelled from the spec: [get] is the "point lookup". *)
Definition get (id : string) (c : t) : option Vehicle :=
  option_map snd (find (fun e => String.eqb (fst e) id) (entries c)).

(** Modelled from the spec: [set] is "upsert a single record (used after
    booking/ride-finish mutations)"; only [addAll] is said to mark the cache
    loaded. *)
Definition set (v : Vehicle) (c : t) : t :=
  {| loaded := loaded c; entries := upsert v (entries c) |}.
End CacheService.

(** The vehicle collection behind [vehicleModel]: [find()] answers every
    document, [findOne({ uuid })] the first one with that uuid, and
    [updateOne({ uuid }, vehicle)] overwrites the first one with that uuid
    (and does nothing when there is none). *)
Module VehicleModel.
Definition t : Type := list Vehicle.

Definition find (m : t) : list Vehicle := m.

Definition findOne (id : string) (m : t) : option Vehicle :=
  List.find (fun v => String.eqb (uuid v) id) m.

Fixpoint updateOne (id : string) (v : Vehicle) (m : t) : t :=
  match m with
  | [] => []
  | x :: m' =>
      if String.eqb (uuid x) id then v :: m'
      else x :: updateOne id v m'
  end.
End VehicleModel.

(** Modelled from the spec: [ReviewService.getVehicleReviews] is called by
    the matching loop but is not part of the sources; it is the "reviews for
    vehicle X" read of the review store, a table from the vehicle uuid to
    the reviews the driver sees. *)
Definition VehicleReviews : Type := string -> list VehicleReviewDto.

(** The state of all the collaborators. *)
Record World : Type := mkWorld
  { cacheService : CacheService.t
  ; vehicleModel : VehicleModel.t
  ; reviewService : VehicleReviews
  ; reviewModel : list Review.t
  ; guidService : nat -> string
  ; guidsUsed : nat
  ; clock : Date }.

Definition withCache (c : CacheService.t) (w : World) : World :=
  {| cacheService := c; vehicleModel := vehicleModel w
   ; reviewService := reviewService w; reviewModel := reviewModel w
   ; guidService := guidService w; guidsUsed := guidsUsed w
   ; clock := clock w |}.

Definition withVehicles (m : VehicleModel.t) (w : World) : World :=
  {| cacheService := cacheService w; vehicleModel := m
   ; reviewService := reviewService w; reviewModel := reviewModel w
   ; guidService := guidService w; guidsUsed := guidsUsed w
   ; clock := clock w |}.

Definition withReviews (rs : list Review.t) (w : World) : World :=
  {| cacheService := cacheService w; vehicleModel := vehicleModel w
   ; reviewService := reviewService w; reviewModel := rs
   ; guidService := guidService w; guidsUsed := guidsUsed w
   ; clock := clock w |}.

Definition withGuidsUsed (n : nat) (w : World) : World :=
  {| cacheService := cacheService w; vehicleModel := vehicleModel w
   ; reviewService := reviewService w; reviewModel := reviewModel w
   ; guidService := guidService w; guidsUsed := n
   ; clock := clock w |}.

(** How the collaborators answer a call. *)
Definition handle (X : Type) (c : Cmd X) (w : World) : X * World :=
  match c in Cmd X return X * World with
  | CacheIsEmpty => (CacheService.isEmpty (cacheService w), w)
  | CacheAddAll vehicles =>
      (tt, withCache (CacheService.addAll vehicles (cacheService w)) w)
  | CacheGetAll => (CacheService.getAll (cacheService w), w)
  | CacheGet id => (CacheService.get id (cacheService w), w)
  | CacheSet v => (tt, withCache (CacheService.set v (cacheService w)) w)
  | VehicleFind => (VehicleModel.find (vehicleModel w), w)
  | VehicleFindOne id => (VehicleModel.findOne id (vehicleModel w), w)
  | VehicleUpdateOne id v =>
      (tt, withVehicles (VehicleModel.updateOne id v (vehicleModel w)) w)
  | GetVehicleReviews id => (reviewService w id, w)
  | GenerateGuid => (guidService w (guidsUsed w), withGuidsUsed (S (guidsUsed w)) w)
  | NewDate => (clock w, w)
  | ReviewCreate r => (tt, withReviews (reviewModel w ++ [r]) w)
  end.

(** Which logged calls reach the durable vehicle storage, and which one
    writes the cache entry. *)
Definition isStorageCall (e : Call) : bool :=
  match e with
  | call VehicleFind => true
  | call (VehicleFindOne _) => true
  | call (VehicleUpdateOne _ _) => true
  | call _ => false
  end.

Definition noStorageCall (tr : list Call) : bool :=
  forallb (fun e => negb (isStorageCall e)) tr.

Definition isCacheSet (e : Call) : bool :=
  match e with
  | call (CacheSet _) => true
  | call _ => false
  end.

Definition isUpdateOne (e : Call) : bool :=
  match e with
  | call (VehicleUpdateOne _ _) => true
  | call _ => false
  end.

(** [strictlyBefore p q tr]: a call satisfying [q] is made, and none is
    made until after the first call satisfying [p]. *)
Fixpoint strictlyBefore (p q : Call -> bool) (tr : list Call) : bool :=
  match tr with
  | [] => false
  | e :: tr' =>
      if q e then false
      else if p e then existsb q tr'
      else strictlyBefore p q tr'
  end.

(** [a] comes no later than [b] when ordered by a numeric key. *)
Definition leKey {A : Type} (key : A -> number) (a b : A) : Prop :=
  key a <= key b.

(** What an offer keeps of the ranked element it was made from. *)
Definition ranked (o : VehicleOffer) : VehicleDistance :=
  {| vd_vehicle := vehicle o; distance := distanceToDriver o |}.

Definition unbooked (v : Vehicle) : bool := negb (booked v).

Definition unbookedAt (vd : VehicleDistance) : bool := unbooked (vd_vehicle vd).


Definition allRated (reviews : list VehicleReviewDto) : bool :=
  forallb (fun review =>
             match rate review with
             | Some _ => true
             | None => false
             end) reviews.



(** The invariant of a review document: a rating or a comment is present
    only when the completion flag is set. *)
Definition ratedOnlyWhenCompleted (r : Review.t) : bool :=
  match Review.rate r, Review.comment r with
  | None, None => true
  | _, _ => Review.completed r
  end.

(** The call the matching loop makes for the vehicle of an offer, and the
    test "the offer is at distance [q]". *)
Definition reviewsCallOf (o : VehicleOffer) : Call :=
  call (GetVehicleReviews (uuid (vehicle o))).

Definition offeredAt (q : number) (o : VehicleOffer) : bool :=
  Qeq_bool (distanceToDriver o) q.

(** A cache whose entries are filed under the uuid of their vehicle, one
    entry for each uuid: what [addAll] and [set] build from the fresh
    cache. *)
Definition cacheKeyed (c : CacheService.t) : Prop :=
  NoDup (map fst (CacheService.entries c))
  /\ Forall (fun e => fst e = uuid (snd e)) (CacheService.entries c).

(** ** ReviewService: get, getAllReviews, leaveReview *)

(** What [getAllReviews] answers for one review. *)
Module ReviewDto.
Record vehicle_t : Type := mkVehicle
  { vehicleId : string
  ; brand : string
  ; firstName : string
  ; lastName : string }.

Record t : Type := mk
  { dateOfRide : Date
  ; uuid : string
  ; price : number
  ; vehicle : vehicle_t
  ; rate : option number
  ; comment : option string }.
End ReviewDto.

(** An element of the answer of [reviewModel.aggregate]: the review
    document and the [vehicle] array that the [$lookup] stage adds to it. *)
Module Joined.
Record t : Type := mk
  { review : Review.t
  ; vehicle : list Vehicle }.
End Joined.

(** The object [getAllReviews] returns. *)
Record ReviewsByStatus : Type := mkReviewsByStatus
  { completed : list ReviewDto.t
  ; pending : list ReviewDto.t }.

(** The calls of the three methods on [reviewModel]. *)
Inductive ReviewCmd : Type -> Type :=
| ReviewFindOne (id : string) : ReviewCmd (option Review.t)
| ReviewAggregate (email : string) : ReviewCmd (list Joined.t)
| ReviewUpdateOne (id : string) (review : Review.t) : ReviewCmd unit.

Inductive ReviewCall : Type :=
| reviewCall {X : Type} (c : ReviewCmd X).

Inductive ReviewAsync (R : Type) : Type :=
| ReviewReturn (r : R)
| ReviewAwait {X : Type} (c : ReviewCmd X) (k : X -> ReviewAsync R).

Arguments ReviewReturn {R} r.
Arguments ReviewAwait {R X} c k.

Section RunReview.
Context {W : Type}.
Variable handle : forall X : Type, ReviewCmd X -> W -> X * W.

Fixpoint runReview {R : Type} (p : ReviewAsync R) (w : W)
    : R * W * list ReviewCall :=
  match p with
  | ReviewReturn r => (r, w, [])
  | ReviewAwait c k =>
      let (x, w1) := handle _ c w in
      let '(r, w2, tr) := runReview (k x) w1 in
      (r, w2, reviewCall c :: tr)
  end.

Definition reviewResult {R : Type} (p : ReviewAsync R) (w : W) : R :=
  fst (fst (runReview p w)).
Definition reviewFinal {R : Type} (p : ReviewAsync R) (w : W) : W :=
  snd (fst (runReview p w)).
Definition reviewTrace {R : Type} (p : ReviewAsync R) (w : W) : list ReviewCall :=
  snd (runReview p w).
End RunReview.

(** [x?.field || fallback] on strings: the fallback is taken when the
    object is missing and also when the field is the empty string. *)
Definition orElse (s : option string) (fallback : string) : string :=
  match s with
  | Some (String _ _ as x) => x
  | Some EmptyString => fallback
  | None => fallback
  end.

(** The body of the loop of [getAllReviews] up to the push: the dto of one
    joined review.  [vehicleData] is [review.vehicle[0]]. *)
Definition reviewDtoOf (j : Joined.t) : ReviewDto.t :=
  let review := Joined.review j in
  let vehicleData : option Vehicle := hd_error (Joined.vehicle j) in
  {| ReviewDto.dateOfRide := Review.dateOfRide review
   ; ReviewDto.uuid := Review.uuid review
   ; ReviewDto.price := Review.price review
   ; ReviewDto.vehicle :=
       {| ReviewDto.vehicleId :=
            orElse (option_map uuid vehicleData) "Id not found"
        ; ReviewDto.brand :=
            orElse (option_map brand vehicleData) "Brand not found"
        ; ReviewDto.firstName :=
            orElse (option_map firstName vehicleData) "First name not found"
        ; ReviewDto.lastName :=
            orElse (option_map lastName vehicleData) "Last name not found" |}
   ; ReviewDto.rate :=
       match Review.rate review with
       | Some rate => Some rate
       | None => None
       end
   ; ReviewDto.comment :=
       match Review.comment review with
       | Some comment => Some comment
       | None => None
       end |}.

(** The completion flag of a joined review. *)
Definition isCompleted (j : Joined.t) : bool := Review.completed (Joined.review j).

(** One turn of the loop on the two arrays. *)
Definition distribute (acc : ReviewsByStatus) (j : Joined.t) : ReviewsByStatus :=
  let reviewDto := reviewDtoOf j in
  if Review.completed (Joined.review j)
  then {| completed := completed acc ++ [reviewDto]; pending := pending acc |}
  else {| completed := completed acc; pending := pending acc ++ [reviewDto] |}.

Module ReviewService.
Definition get (id : string) : ReviewAsync (option Review.t) :=
  ReviewAwait (ReviewFindOne id) ReviewReturn.

Definition getAllReviews (email : string) : ReviewAsync ReviewsByStatus :=
  ReviewAwait (ReviewAggregate email)
    (fun reviews =>
       ReviewReturn
         (fold_left distribute reviews {| completed := []; pending := [] |})).

Definition leaveReview (review : Review.t) : ReviewAsync unit :=
  ReviewAwait (ReviewUpdateOne (Review.uuid review) review) ReviewReturn.
End ReviewService.

(** The review collection behind [reviewModel].  [findOne({ uuid })]
    answers the first document with that uuid.  [updateOne({ uuid }, review)]
    assigns the fields that [review] has to the first document with that
    uuid, and does nothing when there is none.  The aggregate keeps the
    reviews of the email ([$match]) and joins to each one the vehicles whose
    uuid is its [vehicleId] ([$lookup]). *)
Module ReviewModel.
Definition t : Type := list Review.t.

Definition findOne (id : string) (m : t) : option Review.t :=
  List.find (fun r => String.eqb (Review.uuid r) id) m.

Definition assign (review old : Review.t) : Review.t :=
  {| Review.uuid := Review.uuid review
   ; Review.email := Review.email review
   ; Review.vehicleId := Review.vehicleId review
   ; Review.dateOfRide := Review.dateOfRide review
   ; Review.price := Review.price review
   ; Review.completed := Review.completed review
   ; Review.rate :=
       match Review.rate review with
       | Some x => Some x
       | None => Review.rate old
       end
   ; Review.comment :=
       match Review.comment review with
       | Some x => Some x
       | None => Review.comment old
       end |}.

Fixpoint updateOne (id : string) (review : Review.t) (m : t) : t :=
  match m with
  | [] => []
  | x :: m' =>
      if String.eqb (Review.uuid x) id then assign review x :: m'
      else x :: updateOne id review m'
  end.

Definition aggregate (email : string) (vehicles : list Vehicle) (m : t)
    : list Joined.t :=
  map (fun r =>
         {| Joined.review := r
          ; Joined.vehicle :=
              filter (fun v => String.eqb (uuid v) (Review.vehicleId r)) vehicles |})
      (filter (fun r => String.eqb (Review.email r) email) m).
End ReviewModel.

(** How the review collection of [World] answers. *)
Definition handleReview (X : Type) (c : ReviewCmd X) (w : World) : X * World :=
  match c in ReviewCmd X return X * World with
  | ReviewFindOne id => (ReviewModel.findOne id (reviewModel w), w)
  | ReviewAggregate email =>
      (ReviewModel.aggregate email (vehicleModel w) (reviewModel w), w)
  | ReviewUpdateOne id review =>
      (tt, withReviews (ReviewModel.updateOne id review (reviewModel w)) w)
  end.

(** ** A small fleet

    Three vehicles, a rider at the origin and, standing in for the position
    service in the examples, the taxicab distance. *)
Definition taxicabDistance (a b : Position.t) : number :=
  Qabs (Position.latitude a - Position.latitude b)
  + Qabs (Position.longitude a - Position.longitude b).

Definition V1 : Vehicle :=
  {| uuid := "v1"%string; brand := "Fiat"%string
   ; firstName := "Ana"%string; lastName := "Ilic"%string
   ; latitude := 0; longitude := 0; startPrice := 5; pricePerKM := 2
   ; booked := false |}.

Definition V2 : Vehicle :=
  {| uuid := "v2"%string; brand := "Opel"%string
   ; firstName := "Boris"%string; lastName := "Jovic"%string
   ; latitude := 1; longitude := 1; startPrice := 3; pricePerKM := 1
   ; booked := false |}.

Definition V3 : Vehicle :=
  {| uuid := "v3"%string; brand := "Skoda"%string
   ; firstName := "Vera"%string; lastName := "Kos"%string
   ; latitude := 0; longitude := 1; startPrice := 4; pricePerKM := 3
   ; booked := true |}.

Definition fleet : list Vehicle := [V1; V2; V3].

Definition rider : Position.t := Position.mk 0 0.

(** Never loaded cache, the fleet in storage, two ratings for [V1]. *)
Definition world0 : World :=
  {| cacheService := CacheService.fresh
   ; vehicleModel := fleet
   ; reviewService := fun id =>
       if String.eqb id "v1"%string
       then [ {| rate := Some 4; comment := "ok"%string |}
            ; {| rate := Some 5; comment := "fine"%string |} ]
       else []
   ; reviewModel := []
   ; guidService := fun n => String (Ascii.ascii_of_nat (97 + n)) EmptyString
   ; guidsUsed := 0
   ; clock := 1700000000000%Z |}.


(** A pending review of [V1] in the collection, and the same review as
    its requester fills it in. *)
Definition R1 : Review.t :=
  {| Review.uuid := "r1"%string
   ; Review.email := "a@x.rs"%string
   ; Review.vehicleId := "v1"%string
   ; Review.dateOfRide := 1690000000000%Z
   ; Review.price := 25
   ; Review.completed := false
   ; Review.rate := None
   ; Review.comment := None |}.

Definition R1filled : Review.t :=
  {| Review.uuid := "r1"%string
   ; Review.email := "a@x.rs"%string
   ; Review.vehicleId := "v1"%string
   ; Review.dateOfRide := 1690000000000%Z
   ; Review.price := 25
   ; Review.completed := true
   ; Review.rate := Some 5
   ; Review.comment := None |}.

Definition R9 : Review.t :=
  {| Review.uuid := "r9"%string
   ; Review.email := "b@x.rs"%string
   ; Review.vehicleId := "v2"%string
   ; Review.dateOfRide := 1690000000000%Z
   ; Review.price := 13
   ; Review.completed := true
   ; Review.rate := Some 3
   ; Review.comment := Some "late"%string |}.

Definition world1 : World := withReviews [R1] world0.

(** * Properties *)

(** ** Running a method, step by step *)

Section RunFacts.
Context {W : Type}.
Variable h : forall X : Type, Cmd X -> W -> X * W.

Lemma run_Await {R X : Type} (c : Cmd X) (k : X -> Async R) (w : W) :
  run h (Await c k) w =
    (result h (k (fst (h X c w))) (snd (h X c w)),
     final h (k (fst (h X c w))) (snd (h X c w)),
     call c :: trace h (k (fst (h X c w))) (snd (h X c w))).
Proof.
  unfold result, final, trace. simpl.
  destruct (h X c w) as [x w1]. simpl.
  destruct (run h (k x) w1) as [[r w2] tr]. reflexivity.
Qed.

Lemma result_Await {R X : Type} (c : Cmd X) (k : X -> Async R) (w : W) :
  result h (Await c k) w = result h (k (fst (h X c w))) (snd (h X c w)).
Proof. unfold result at 1. rewrite run_Await. reflexivity. Qed.

Lemma final_Await {R X : Type} (c : Cmd X) (k : X -> Async R) (w : W) :
  final h (Await c k) w = final h (k (fst (h X c w))) (snd (h X c w)).
Proof. unfold final at 1. rewrite run_Await. reflexivity. Qed.

Lemma trace_Await {R X : Type} (c : Cmd X) (k : X -> Async R) (w : W) :
  trace h (Await c k) w = call c :: trace h (k (fst (h X c w))) (snd (h X c w)).
Proof. unfold trace at 1. rewrite run_Await. reflexivity. Qed.

(** Sequencing: the second method starts in the state the first one left,
    and its calls come after those of the first. *)
Lemma run_bind {A B : Type} (p : Async A) (f : A -> Async B) (w : W) :
  run h (bind p f) w =
    (result h (f (result h p w)) (final h p w),
     final h (f (result h p w)) (final h p w),
     trace h p w ++ trace h (f (result h p w)) (final h p w)).
Proof.
  revert w. induction p as [a | X c k IH]; intro w.
  - unfold result, final, trace. simpl.
    destruct (run h (f a) w) as [[r w2] tr]. reflexivity.
  - cbn [bind]. rewrite run_Await.
    unfold result at 1, final at 1, trace at 1. rewrite IH. cbn [fst snd].
    rewrite result_Await, final_Await, trace_Await. reflexivity.
Qed.
End RunFacts.

(** ** The sort *)

Section ArraySortFacts.
Context {A : Type}.
Variable compareFn : A -> A -> number.

Lemma array_insert_Permutation (x : A) (l : list A) :
  Permutation (x :: l) (array_insert compareFn x l).
Proof.
  induction l as [| y l IH]; simpl.
  - apply Permutation_refl.
  - destruct (Qle_bool (compareFn x y) 0).
    + apply Permutation_refl.
    + apply perm_trans with (y :: x :: l).
      * apply perm_swap.
      * apply perm_skip, IH.
Qed.

Lemma array_sort_Permutation (l : list A) :
  Permutation l (array_sort compareFn l).
Proof.
  induction l as [| x l IH]; simpl.
  - apply perm_nil.
  - apply perm_trans with (x :: array_sort compareFn l).
    + apply perm_skip, IH.
    + apply array_insert_Permutation.
Qed.

Lemma array_sort_length (l : list A) :
  length (array_sort compareFn l) = length l.
Proof. symmetry. apply Permutation_length, array_sort_Permutation. Qed.

(** A comparator that is the difference of a numeric key. *)
Variable key : A -> number.
Hypothesis compareFn_key : forall a b, compareFn a b == key a - key b.

Let byKey := leKey key.

Lemma compareFn_le (a b : A) :
  Qle_bool (compareFn a b) 0 = true <-> key a <= key b.
Proof.
  rewrite Qle_bool_iff, compareFn_key. split; intro H.
  - apply Qplus_le_l with (z := - key b).
    rewrite Qplus_opp_r. exact H.
  - apply Qplus_le_l with (z := - key b) in H.
    rewrite Qplus_opp_r in H. exact H.
Qed.

Lemma array_insert_sorted (x : A) (l : list A) :
  StronglySorted byKey l -> StronglySorted byKey (array_insert compareFn x l).
Proof.
  induction 1 as [| y l Hl IH Hy]; simpl.
  - constructor; constructor.
  - destruct (Qle_bool (compareFn x y) 0) eqn:E.
    + apply compareFn_le in E.
      constructor.
      * constructor; assumption.
      * constructor; [exact E |].
        eapply Forall_impl; [| exact Hy].
        intros z Hz. unfold byKey, leKey in *. eapply Qle_trans; eassumption.
    + constructor; [exact IH |].
      assert (Hyx : key y <= key x).
      { destruct (Qlt_le_dec (key y) (key x)) as [Hlt | Hle].
        - apply Qlt_le_weak, Hlt.
        - apply compareFn_le in Hle. congruence. }
      eapply Permutation_Forall; [apply array_insert_Permutation |].
      constructor; assumption.
Qed.

Lemma array_sort_sorted (l : list A) :
  StronglySorted byKey (array_sort compareFn l).
Proof.
  induction l as [| x l IH]; simpl.
  - constructor.
  - apply array_insert_sorted, IH.
Qed.

(** Stability: elements that the comparator does not tell apart stay in
    the order they had in the array. *)
Lemma array_sort_stable (f : A -> bool) (l : list A) :
  (forall a b, f a = true -> f b = true -> key a == key b) ->
  filter f (array_sort compareFn l) = filter f l.
Proof.
  intro Hf.
  assert (Hins : forall x l0,
             filter f (array_insert compareFn x l0) = filter f (x :: l0)).
  { intros x l0. induction l0 as [| y l0 IH]; [reflexivity |].
    cbn [array_insert].
    destruct (Qle_bool (compareFn x y) 0) eqn:E; [reflexivity |].
    cbn [filter] in *. rewrite IH.
    destruct (f x) eqn:Fx; [| reflexivity].
    destruct (f y) eqn:Fy; [| reflexivity].
    assert (Hle : key x <= key y) by (rewrite (Hf x y Fx Fy); apply Qle_refl).
    apply compareFn_le in Hle. congruence. }
  induction l as [| x l IH]; [reflexivity |].
  cbn [array_sort fold_right]. fold (array_sort compareFn l).
  rewrite Hins. cbn [filter]. rewrite IH. reflexivity.
Qed.
End ArraySortFacts.

(** ** Lists *)

Lemma Permutation_filter {A : Type} (f : A -> bool) (l l' : list A) :
  Permutation l l' -> Permutation (filter f l) (filter f l').
Proof.
  induction 1 as [| x l l' _ IH | x y l | l l' l'' _ IH1 _ IH2]; cbn [filter].
  - apply perm_nil.
  - destruct (f x); [apply perm_skip |]; exact IH.
  - destruct (f x), (f y); try apply Permutation_refl. apply perm_swap.
  - eapply perm_trans; eassumption.
Qed.

Lemma StronglySorted_filter {A : Type} (R : A -> A -> Prop) (f : A -> bool)
    (l : list A) :
  StronglySorted R l -> StronglySorted R (filter f l).
Proof.
  induction 1 as [| x l _ IH Hx]; cbn [filter]; [constructor |].
  destruct (f x); [| exact IH].
  constructor; [exact IH |].
  rewrite Forall_forall in *. intros y Hy.
  apply filter_In in Hy. apply Hx, Hy.
Qed.

Lemma StronglySorted_firstn {A : Type} (R : A -> A -> Prop) (k : nat)
    (l : list A) :
  StronglySorted R l -> StronglySorted R (firstn k l).
Proof.
  intro H. revert k.
  induction H as [| x l _ IH Hx]; intros [| k]; cbn [firstn]; try constructor.
  - apply IH.
  - rewrite Forall_forall in *. intros y Hy.
    apply Hx. rewrite <- (firstn_skipn k l). apply in_or_app. left. exact Hy.
Qed.

Lemma StronglySorted_map {A B : Type} (R : B -> B -> Prop) (g : A -> B)
    (l : list A) :
  StronglySorted (fun a b => R (g a) (g b)) l -> StronglySorted R (map g l).
Proof.
  induction 1 as [| x l _ IH Hx]; cbn [map]; constructor; [exact IH |].
  rewrite Forall_forall in *. intros y Hy.
  apply in_map_iff in Hy. destruct Hy as [a [<- Ha]]. apply Hx, Ha.
Qed.

(** ** The average *)




(** With a review that has no rating, the score is NaN from that review on,
    and so is the average. *)
Lemma addRate_NaN (reviews : list VehicleReviewDto) :
  fold_left (fun score review => addRate score (rate review)) reviews None = None.
Proof. induction reviews as [| r reviews IH]; [reflexivity | exact IH]. Qed.

Lemma averageRatingOf_unrated (reviews : list VehicleReviewDto) :
  allRated reviews = false -> averageRatingOf reviews = None.
Proof.
  intro Hall.
  assert (Hs : forall score,
             fold_left (fun score review => addRate score (rate review))
               reviews score = None).
  { induction reviews as [| r reviews IH]; intro score; [discriminate Hall |].
    cbn [fold_left]. cbn [allRated forallb] in Hall.
    destruct (rate r) as [x |].
    - cbn [andb] in Hall. apply IH, Hall.
    - destruct score; apply addRate_NaN. }
  assert (Hn : scoreOf reviews = None) by apply Hs.
  unfold averageRatingOf. rewrite Hn.
  destruct reviews; [discriminate Hall | reflexivity].
Qed.

(** ** The matching loop *)

Lemma ranked_offerOf (d : number) (vd : VehicleDistance)
    (rs : list VehicleReviewDto) :
  ranked (offerOf d vd rs) = vd.
Proof. destruct vd. reflexivity. Qed.

Section ClosestLoop.
Context {W : Type}.
Variable h : forall X : Type, Cmd X -> W -> X * W.
Variables count d : number.

(** The answer of the review service to the loop's call for [vd], from
    the state [w]. *)
Let answer (vd : VehicleDistance) (w : W) : list VehicleReviewDto :=
  fst (h _ (GetVehicleReviews (uuid (vd_vehicle vd))) w).

Lemma closestLoop_step (vd : VehicleDistance) (rest : list VehicleDistance)
    (closest : list VehicleOffer) (w : W) :
  result h (closestLoop count d (vd :: rest) closest) w =
    if booked (vd_vehicle vd) then result h (closestLoop count d rest closest) w
    else
      let w1 := snd (h _ (GetVehicleReviews (uuid (vd_vehicle vd))) w) in
      let closest' := closest ++ [offerOf d vd (answer vd w)] in
      if lengthIs closest' count then closest'
      else result h (closestLoop count d rest closest') w1.
Proof.
  cbn [closestLoop]. destruct (booked (vd_vehicle vd)); [reflexivity |].
  cbn [bind await]. rewrite result_Await. cbv zeta. unfold answer.
  destruct (lengthIs _ count); reflexivity.
Qed.

(** The offers are made, in order, from a prefix of the unbooked elements. *)
Lemma closestLoop_prefix (vds : list VehicleDistance) :
  forall (closest : list VehicleOffer) (w : W),
  exists k : nat,
    map ranked (result h (closestLoop count d vds closest) w)
    = map ranked closest ++ firstn k (filter unbookedAt vds).
Proof.
  induction vds as [| vd rest IH]; intros closest w.
  - exists 0%nat. cbn. rewrite app_nil_r. reflexivity.
  - rewrite closestLoop_step. cbn [filter]. unfold unbookedAt at 1, unbooked.
    destruct (booked (vd_vehicle vd)); cbn [negb]; [apply IH |].
    cbv zeta. destruct (lengthIs _ count).
    + exists 1%nat. rewrite map_app. cbn [map firstn].
      rewrite ranked_offerOf. reflexivity.
    + destruct (IH (closest ++ [offerOf d vd (answer vd w)])
                   (snd (h _ (GetVehicleReviews (uuid (vd_vehicle vd))) w)))
        as [k Hk].
      exists (S k). rewrite Hk, map_app, <- app_assoc. cbn [map firstn app].
      rewrite ranked_offerOf. reflexivity.
Qed.

(** When no length the array can still reach equals [count], the loop
    never breaks. *)
Lemma closestLoop_all (vds : list VehicleDistance) :
  forall (closest : list VehicleOffer) (w : W),
    (forall m : nat, (length closest < m)%nat ->
       Qeq_bool (inject_Z (Z.of_nat m)) count = false) ->
    map ranked (result h (closestLoop count d vds closest) w)
    = map ranked closest ++ filter unbookedAt vds.
Proof.
  induction vds as [| vd rest IH]; intros closest w Hm.
  - cbn. rewrite app_nil_r. reflexivity.
  - rewrite closestLoop_step. cbn [filter]. unfold unbookedAt at 1, unbooked.
    destruct (booked (vd_vehicle vd)); cbn [negb]; [apply IH, Hm |].
    cbv zeta. unfold lengthIs. rewrite length_app. cbn [length].
    rewrite Hm by lia.
    rewrite IH.
    + rewrite map_app, <- app_assoc. cbn [map app].
      rewrite ranked_offerOf. reflexivity.
    + intros m Hlt. apply Hm. rewrite length_app in Hlt. cbn in Hlt. lia.
Qed.

(** When [count] is a whole number the array has not reached yet, the
    loop stops at that length. *)
Lemma closestLoop_upto (n : nat) (vds : list VehicleDistance) :
  count == inject_Z (Z.of_nat n) ->
  forall (closest : list VehicleOffer) (w : W),
    (length closest < n)%nat ->
    map ranked (result h (closestLoop count d vds closest) w)
    = map ranked closest ++ firstn (n - length closest) (filter unbookedAt vds).
Proof.
  intro Hn.
  induction vds as [| vd rest IH]; intros closest w Hlt.
  - cbn. rewrite firstn_nil, app_nil_r. reflexivity.
  - rewrite closestLoop_step. cbn [filter]. unfold unbookedAt at 1, unbooked.
    destruct (booked (vd_vehicle vd)); cbn [negb]; [apply IH, Hlt |].
    cbv zeta. unfold lengthIs. rewrite length_app. cbn [length].
    destruct (Qeq_bool (inject_Z (Z.of_nat (length closest + 1))) count) eqn:E.
    + apply Qeq_bool_iff in E. rewrite Hn in E.
      apply (proj1 (inject_Z_injective _ _)) in E. apply Nat2Z.inj in E.
      replace (n - length closest)%nat with 1%nat by lia.
      rewrite map_app. cbn [map firstn]. rewrite ranked_offerOf. reflexivity.
    + assert (Hne : (length closest + 1 <> n)%nat).
      { intro Heq. apply Qeq_bool_neq in E. apply E.
        rewrite Hn, Heq. reflexivity. }
      rewrite IH by (rewrite length_app; cbn; lia).
      rewrite length_app. cbn [length].
      replace (n - length closest)%nat with (S (n - (length closest + 1)))%nat by lia.
      rewrite map_app, <- app_assoc. cbn [map firstn app].
      rewrite ranked_offerOf. reflexivity.
Qed.

(** Every offer is either one the loop started with or the object made
    from an unbooked element and the review service's answer for it, in a
    state the loop went through: [I] is any property of the state that the
    calls of the loop preserve. *)
Lemma closestLoop_Forall (I : W -> Prop) (P : VehicleOffer -> Prop)
    (vds : list VehicleDistance) :
  (forall (id : string) (w : W),
      I w -> I (snd (h _ (GetVehicleReviews id) w))) ->
  (forall (vd : VehicleDistance) (w : W),
      I w -> In vd vds -> booked (vd_vehicle vd) = false ->
      P (offerOf d vd (answer vd w))) ->
  forall (closest : list VehicleOffer) (w : W),
    I w -> Forall P closest ->
    Forall P (result h (closestLoop count d vds closest) w).
Proof.
  intro HI.
  induction vds as [| vd rest IH]; intros HP closest w Hw Hc.
  - exact Hc.
  - rewrite closestLoop_step.
    assert (HP' : forall vd' w', I w' -> In vd' rest ->
                    booked (vd_vehicle vd') = false ->
                    P (offerOf d vd' (answer vd' w'))).
    { intros vd' w' Hw' Hin. apply HP; [exact Hw' | right; exact Hin]. }
    destruct (booked (vd_vehicle vd)) eqn:Eb; [apply IH; assumption |].
    cbv zeta.
    assert (Hc' : Forall P (closest ++ [offerOf d vd (answer vd w)])).
    { apply Forall_app. split; [exact Hc |].
      constructor; [| constructor].
      apply HP; [exact Hw | left; reflexivity | exact Eb]. }
    destruct (lengthIs _ count); [exact Hc' |].
    apply IH; [exact HP' | apply HI, Hw | exact Hc'].
Qed.
End ClosestLoop.

(** ** findClosestVehicles *)

Lemma map_filter_swap {A B : Type} (g : A -> B) (f : B -> bool) (l : list A) :
  map g (filter (fun a => f (g a)) l) = filter f (map g l).
Proof.
  induction l as [| a l IH]; cbn [map filter]; [reflexivity |].
  destruct (f (g a)); cbn [map]; rewrite IH; reflexivity.
Qed.

Lemma count_not_reached (count : number) :
  count <= 0 ->
  forall m : nat, (0 < m)%nat -> Qeq_bool (inject_Z (Z.of_nat m)) count = false.
Proof.
  intros Hc m Hm.
  destruct (Qeq_bool (inject_Z (Z.of_nat m)) count) eqn:E; [| reflexivity].
  apply Qeq_bool_iff in E. exfalso.
  assert (Hpos : 0 < inject_Z (Z.of_nat m))
    by (change 0 with (inject_Z 0); rewrite <- Zlt_Qlt; lia).
  rewrite E in Hpos. apply (Qlt_not_le _ _ Hpos Hc).
Qed.

Section FindClosestVehicles.
Context {W : Type}.
Variable h : forall X : Type, Cmd X -> W -> X * W.
Variable calculateDistance : Position.t -> Position.t -> number.
Variable userPosition : Position.t.
Variable vehicles : list Vehicle.
Variables count distanceToDestination : number.
Variable w : W.

Let sorted : list VehicleDistance :=
  array_sort compareDistance (distancesFrom calculateDistance userPosition vehicles).

Let offers : list VehicleOffer :=
  result h (findClosestVehicles calculateDistance userPosition vehicles
              count distanceToDestination) w.

Lemma sorted_by_distance : StronglySorted (leKey distance) sorted.
Proof.
  apply array_sort_sorted. intros a b. reflexivity.
Qed.

Lemma sorted_vehicles : Permutation vehicles (map vd_vehicle sorted).
Proof.
  eapply perm_trans;
    [| apply Permutation_map, array_sort_Permutation].
  unfold distancesFrom. rewrite map_map. cbn [vd_vehicle].
  rewrite map_id. apply Permutation_refl.
Qed.

Lemma unbooked_sorted :
  Permutation (filter unbooked vehicles) (map vd_vehicle (filter unbookedAt sorted)).
Proof.
  unfold unbookedAt. rewrite map_filter_swap.
  apply Permutation_filter, sorted_vehicles.
Qed.

Lemma offers_prefix :
  exists k : nat, map ranked offers = firstn k (filter unbookedAt sorted).
Proof.
  destruct (closestLoop_prefix h count distanceToDestination sorted [] w)
    as [k Hk].
  exists k. exact Hk.
Qed.

(** For a whole [count] of at least one, the array has
    min(count, number of unbooked candidates) offers. *)
Lemma findClosestVehicles_length (n : nat) :
  (1 <= n)%nat -> count == inject_Z (Z.of_nat n) ->
  length offers = Nat.min n (length (filter unbooked vehicles)).
Proof.
  intros Hn Hc.
  assert (E : map ranked offers
              = [] ++ firstn (n - 0) (filter unbookedAt sorted))
    by (apply (closestLoop_upto h count distanceToDestination n sorted Hc [] w);
        cbn; lia).
  rewrite <- (length_map ranked), E.
  cbn [app]. rewrite Nat.sub_0_r, length_firstn.
  rewrite (Permutation_length unbooked_sorted), length_map. reflexivity.
Qed.
End FindClosestVehicles.

(** C1 (what the code does at the failing input).  With [count = 0] the
    break test [closestVehicles.length === count] is only made after a push,
    so it never holds: for the sample fleet, which has two unbooked
    vehicles, the method answers two offers, whereas min(0, 2) = 0. *)
Theorem findClosestVehicles_count_zero :
  length (result handle
            (findClosestVehicles taxicabDistance rider fleet 0 10) world0) = 2%nat
  /\ Nat.min 0 (length (filter unbooked fleet)) = 0%nat.
Proof. split; vm_compute; reflexivity. Qed.

(** C2.  For every candidate list and every count, whatever the
    collaborators answer, no offer returned by [findClosestVehicles] carries
    a vehicle whose [booked] flag is true. *)
Theorem findClosestVehicles_never_booked :
  forall (W : Type) (h : forall X : Type, Cmd X -> W -> X * W)
         (calculateDistance : Position.t -> Position.t -> number)
         (userPosition : Position.t) (vehicles : list Vehicle)
         (count distanceToDestination : number) (w : W),
    Forall (fun o => booked (vehicle o) = false)
      (result h (findClosestVehicles calculateDistance userPosition vehicles
                   count distanceToDestination) w).
Proof.
  intros. unfold findClosestVehicles.
  apply (closestLoop_Forall h count distanceToDestination (fun _ => True));
    [trivial | | trivial | constructor].
  intros vd w' _ _ Hb. exact Hb.
Qed.




(** With the review service of [World], whose answers do not change while
    the loop runs: the reviews of an offer are the reviews held for its
    vehicle when the method is called. *)
Lemma findClosestVehicles_reviews
    (calculateDistance : Position.t -> Position.t -> number)
    (userPosition : Position.t) (vehicles : list Vehicle)
    (count distanceToDestination : number) (w : World) :
  Forall (fun o =>
            reviews o = reviewService w (uuid (vehicle o))
            /\ averageRating o
               = averageRatingOf (reviewService w (uuid (vehicle o))))
    (result handle (findClosestVehicles calculateDistance userPosition vehicles
                      count distanceToDestination) w).
Proof.
  unfold findClosestVehicles.
  apply (closestLoop_Forall handle count distanceToDestination
           (fun w' => reviewService w' = reviewService w));
    [| | reflexivity | constructor].
  - intros id w' Hw'. exact Hw'.
  - intros vd w' Hw' _ _. cbn [offerOf reviews vehicle averageRating handle fst].
    rewrite Hw'. split; reflexivity.
Qed.

(** C4.  In the list returned by [findClosestVehicles] the
    [distanceToDriver] values are non-decreasing from the first offer to
    the last. *)
Theorem findClosestVehicles_nondecreasing :
  forall (W : Type) (h : forall X : Type, Cmd X -> W -> X * W)
         (calculateDistance : Position.t -> Position.t -> number)
         (userPosition : Position.t) (vehicles : list Vehicle)
         (count distanceToDestination : number) (w : W),
    Sorted Qle
      (map distanceToDriver
         (result h (findClosestVehicles calculateDistance userPosition vehicles
                      count distanceToDestination) w)).
Proof.
  intros.
  destruct (offers_prefix h calculateDistance userPosition vehicles
              count distanceToDestination w) as [k Hk].
  apply StronglySorted_Sorted.
  replace (map distanceToDriver
             (result h (findClosestVehicles calculateDistance userPosition
                          vehicles count distanceToDestination) w))
    with (map distance
            (map ranked
               (result h (findClosestVehicles calculateDistance userPosition
                            vehicles count distanceToDestination) w)))
    by (rewrite map_map; reflexivity).
  rewrite Hk.
  apply StronglySorted_map, StronglySorted_firstn, StronglySorted_filter.
  apply sorted_by_distance.
Qed.

(** C5.  The price of every offer returned by [findClosestVehicles] is
    [distanceToDestination] times the vehicle's price per kilometre plus the
    vehicle's start price. *)
Theorem findClosestVehicles_price :
  forall (W : Type) (h : forall X : Type, Cmd X -> W -> X * W)
         (calculateDistance : Position.t -> Position.t -> number)
         (userPosition : Position.t) (vehicles : list Vehicle)
         (count distanceToDestination : number) (w : W),
    Forall (fun o =>
              price o = distanceToDestination * pricePerKM (vehicle o)
                        + startPrice (vehicle o))
      (result h (findClosestVehicles calculateDistance userPosition vehicles
                   count distanceToDestination) w).
Proof.
  intros. unfold findClosestVehicles.
  apply (closestLoop_Forall h count distanceToDestination (fun _ => True));
    [trivial | | trivial | constructor].
  intros vd w' _ _ _. reflexivity.
Qed.

(** C10.  For every [count <= 0] the loop never breaks:
    [findClosestVehicles] returns one offer for every unbooked candidate
    (in particular when there is at least one), in the order of the sorted
    array. *)
Theorem findClosestVehicles_nonpositive_count :
  forall (W : Type) (h : forall X : Type, Cmd X -> W -> X * W)
         (calculateDistance : Position.t -> Position.t -> number)
         (userPosition : Position.t) (vehicles : list Vehicle)
         (count distanceToDestination : number) (w : W),
    count <= 0 ->
    let offers :=
      result h (findClosestVehicles calculateDistance userPosition vehicles
                  count distanceToDestination) w in
    map ranked offers
    = filter unbookedAt
        (array_sort compareDistance
           (distancesFrom calculateDistance userPosition vehicles))
    /\ Permutation (filter unbooked vehicles) (map vehicle offers)
    /\ length offers = length (filter unbooked vehicles).
Proof.
  intros W h calculateDistance userPosition vehicles count d w Hc offers.
  assert (E : map ranked offers
              = filter unbookedAt
                  (array_sort compareDistance
                     (distancesFrom calculateDistance userPosition vehicles))).
  { apply (closestLoop_all h count d _ [] w).
    intros m Hm. apply count_not_reached; assumption. }
  assert (P : Permutation (filter unbooked vehicles) (map vehicle offers)).
  { replace (map vehicle offers) with (map vd_vehicle (map ranked offers))
      by (rewrite map_map; reflexivity).
    rewrite E. apply unbooked_sorted. }
  repeat split; [exact E | exact P |].
  rewrite (Permutation_length P), length_map. reflexivity.
Qed.

Lemma findClosestVehicles_nonpositive_count_witness :
  -1 <= 0
  /\ length (result handle
               (findClosestVehicles taxicabDistance rider fleet (-1) 10) world0)
     = length (filter unbooked fleet).
Proof.
  assert (H : -1 <= 0) by (vm_compute; discriminate).
  split; [exact H |].
  apply (findClosestVehicles_nonpositive_count
           World handle taxicabDistance rider fleet (-1) 10 world0 H).
Defined.

(** ** The registry: getAllVehicles, getVehicle, book, finishRide *)

(** C6.  When the cache reports empty, [getAllVehicles] asks the storage
    for the whole fleet, hands exactly that fleet to [addAll] and returns
    it; when the cache reports loaded it returns what [getAll] answers and
    makes no call on the storage. *)
Theorem getAllVehicles_fills_once :
  forall (W : Type) (h : forall X : Type, Cmd X -> W -> X * W) (w : W),
    let w1 := snd (h _ CacheIsEmpty w) in
    if fst (h _ CacheIsEmpty w) then
      let fleet := fst (h _ VehicleFind w1) in
      result h getAllVehicles w = fleet
      /\ trace h getAllVehicles w
         = [call CacheIsEmpty; call VehicleFind; call (CacheAddAll fleet)]
      /\ final h getAllVehicles w
         = snd (h _ (CacheAddAll fleet) (snd (h _ VehicleFind w1)))
    else
      result h getAllVehicles w = fst (h _ CacheGetAll w1)
      /\ trace h getAllVehicles w = [call CacheIsEmpty; call CacheGetAll]
      /\ noStorageCall (trace h getAllVehicles w) = true.
Proof.
  intros W h w w1. unfold getAllVehicles, await. cbn [bind].
  rewrite result_Await, trace_Await, final_Await. fold w1.
  destruct (fst (h bool CacheIsEmpty w)); cbn [bind].
  - rewrite !result_Await, !trace_Await, !final_Await.
    repeat split.
  - rewrite !result_Await, !trace_Await.
    repeat split.
Qed.

(** With the cache and the storage of [World]: a never loaded cache is
    loaded by the first call, which returns the stored fleet, and the next
    call is answered without the storage. *)
Lemma getAllVehicles_twice (w : World) :
  CacheService.isEmpty (cacheService w) = true ->
  let w' := final handle getAllVehicles w in
  result handle getAllVehicles w = vehicleModel w
  /\ cacheService w' = CacheService.addAll (vehicleModel w) (cacheService w)
  /\ CacheService.isEmpty (cacheService w') = false
  /\ noStorageCall (trace handle getAllVehicles w') = true.
Proof.
  intros He w'. subst w'.
  unfold result, final, trace, getAllVehicles. cbn. rewrite He. cbn.
  repeat split.
Qed.

Lemma upsert_find (v : Vehicle) (es : list (string * Vehicle)) :
  option_map snd
    (find (fun e => String.eqb (fst e) (uuid v)) (CacheService.upsert v es))
  = Some v.
Proof.
  induction es as [| [k x] es IH]; cbn.
  - rewrite String.eqb_refl. reflexivity.
  - destruct (String.eqb k (uuid v)) eqn:E; cbn; rewrite E; [reflexivity | exact IH].
Qed.

Lemma CacheService_get_set (v : Vehicle) (c : CacheService.t) :
  CacheService.get (uuid v) (CacheService.set v c) = Some v.
Proof. apply upsert_find. Qed.

(** [set] leaves the loaded flag as it is: a cache that is loaded before
    [book] is loaded after it. *)
Lemma book_keeps_loaded (v : Vehicle) (w : World) :
  CacheService.isEmpty (cacheService (final handle (book v) w))
  = CacheService.isEmpty (cacheService w).
Proof. reflexivity. Qed.

(** C7.  After [book v], while the cache is loaded, [getVehicle] on the
    uuid of [v] returns the record of [v] with [booked = true], and makes no
    call on the storage. *)
Theorem book_then_getVehicle :
  forall (v : Vehicle) (w : World),
    let w' := final handle (book v) w in
    CacheService.isEmpty (cacheService w') = false ->
    result handle (getVehicle (uuid v)) w' = Some (setBooked true v)
    /\ option_map booked (result handle (getVehicle (uuid v)) w') = Some true
    /\ noStorageCall (trace handle (getVehicle (uuid v)) w') = true.
Proof.
  intros v w w' Hloaded.
  assert (Hget : CacheService.get (uuid v) (cacheService w') = Some (setBooked true v)).
  { subst w'. unfold final, book. cbn.
    apply (CacheService_get_set (setBooked true v)). }
  clearbody w'.
  unfold result, trace, getVehicle. cbn.
  rewrite Hloaded. cbn. rewrite Hget. repeat split.
Qed.

Lemma book_then_getVehicle_witness :
  CacheService.isEmpty
    (cacheService (final handle (book V1) (final handle getAllVehicles world0)))
  = false
  /\ option_map booked
       (result handle (getVehicle (uuid V1))
          (final handle (book V1) (final handle getAllVehicles world0)))
     = Some true.
Proof.
  assert (H : CacheService.isEmpty
                (cacheService
                   (final handle (book V1) (final handle getAllVehicles world0)))
              = false) by reflexivity.
  split; [exact H |].
  apply (book_then_getVehicle V1 (final handle getAllVehicles world0) H).
Defined.

(** C8.  In every [book] call and in every [finishRide] call, whatever the
    collaborators answer, exactly two calls are made, [cacheService.set]
    first and [updateOne] on the storage second, both with the updated
    vehicle. *)
Theorem cache_set_before_updateOne :
  forall (W : Type) (h : forall X : Type, Cmd X -> W -> X * W)
         (vehicle : Vehicle) (newLocation : Position.t) (w : W),
    let booked' := setBooked true vehicle in
    let finished :=
      setBooked false
        (setLatitude (Position.latitude newLocation)
           (setLongitude (Position.longitude newLocation) vehicle)) in
    trace h (book vehicle) w
    = [call (CacheSet booked'); call (VehicleUpdateOne (uuid vehicle) booked')]
    /\ strictlyBefore isCacheSet isUpdateOne (trace h (book vehicle) w) = true
    /\ trace h (finishRide vehicle newLocation) w
       = [call (CacheSet finished); call (VehicleUpdateOne (uuid vehicle) finished)]
    /\ strictlyBefore isCacheSet isUpdateOne
         (trace h (finishRide vehicle newLocation) w) = true.
Proof.
  intros W h vehicle newLocation w booked' finished.
  assert (Hb : trace h (book vehicle) w
               = [call (CacheSet booked');
                  call (VehicleUpdateOne (uuid vehicle) booked')]).
  { unfold book, await. cbn [bind]. rewrite !trace_Await. reflexivity. }
  assert (Hf : trace h (finishRide vehicle newLocation) w
               = [call (CacheSet finished);
                  call (VehicleUpdateOne (uuid vehicle) finished)]).
  { unfold finishRide, await. cbn [bind]. rewrite !trace_Await. reflexivity. }
  rewrite Hb, Hf. repeat split.
Qed.

(** ** insertReviewRequest *)

(** C9.  Whatever the collaborators answer, [insertReviewRequest] creates
    exactly one review document, for the given requester, vehicle and price,
    with [completed = false], no rating and no comment; the document
    satisfies the invariant that a rating or a comment is present only when
    the completion flag is set. *)
Theorem insertReviewRequest_pending :
  forall (W : Type) (h : forall X : Type, Cmd X -> W -> X * W)
         (email vehicleId : string) (price : number) (w : W),
  exists r : Review.t,
    trace h (insertReviewRequest email vehicleId price) w
    = [call GenerateGuid; call NewDate; call (ReviewCreate r)]
    /\ Review.email r = email
    /\ Review.vehicleId r = vehicleId
    /\ Review.price r = price
    /\ Review.completed r = false
    /\ Review.rate r = None
    /\ Review.comment r = None
    /\ ratedOnlyWhenCompleted r = true.
Proof.
  intros. unfold insertReviewRequest, await. cbn [bind].
  rewrite !trace_Await. cbn [trace run snd].
  eexists. split; [reflexivity |]. repeat split.
Qed.

(** In [World], the created document is appended to the review collection
    and nothing else in the collection changes. *)
Lemma insertReviewRequest_stored (email vehicleId : string) (price : number)
    (w : World) :
  reviewModel (final handle (insertReviewRequest email vehicleId price) w)
  = reviewModel w
      ++ [ {| Review.uuid := guidService w (guidsUsed w)
            ; Review.email := email
            ; Review.vehicleId := vehicleId
            ; Review.dateOfRide := clock w
            ; Review.price := price
            ; Review.completed := false
            ; Review.rate := None
            ; Review.comment := None |} ].
Proof. reflexivity. Qed.

(** ** The scenario of the sample fleet *)

Example sample_match :
  map vehicle
    (result handle (findClosestVehicles taxicabDistance rider fleet 2 10) world0)
  = [V1; V2].
Proof. vm_compute. reflexivity. Qed.

Example sample_price_and_rating :
  map (fun o => (price o, averageRating o))
    (result handle (findClosestVehicles taxicabDistance rider fleet 1 10) world0)
  = [(25, Some (9 # 2))].
Proof. vm_compute. reflexivity. Qed.

(** * Further properties *)

(** ** More lists *)

Lemma StronglySorted_app_le {A : Type} (R : A -> A -> Prop) (l1 l2 : list A) :
  StronglySorted R (l1 ++ l2) ->
  forall a b : A, In a l1 -> In b l2 -> R a b.
Proof.
  induction l1 as [| x l1 IH]; intros H a b Ha Hb; [destruct Ha |].
  cbn [app] in H. apply StronglySorted_inv in H. destruct H as [Hs Hx].
  destruct Ha as [<- | Ha].
  - rewrite Forall_forall in Hx. apply Hx, in_or_app. right. exact Hb.
  - apply IH; assumption.
Qed.

Lemma NoDup_map_filter {A B : Type} (g : A -> B) (f : A -> bool) (l : list A) :
  NoDup (map g l) -> NoDup (map g (filter f l)).
Proof.
  induction l as [| a l IH]; cbn [map filter]; intro H; [constructor |].
  apply NoDup_cons_iff in H. destruct H as [Hn H].
  destruct (f a); [| apply IH, H].
  cbn [map]. constructor; [| apply IH, H].
  intro Hin. apply Hn. apply in_map_iff in Hin. destruct Hin as [x [Hx Hin]].
  apply in_map_iff. exists x. split; [exact Hx |].
  apply filter_In in Hin. apply Hin.
Qed.

Lemma NoDup_map_firstn {A B : Type} (g : A -> B) (k : nat) (l : list A) :
  NoDup (map g l) -> NoDup (map g (firstn k l)).
Proof.
  revert k. induction l as [| a l IH]; intros [| k] H; cbn [map firstn];
    try constructor.
  - cbn [map] in H. apply NoDup_cons_iff in H. destruct H as [Hn _].
    intro Hin. apply Hn. apply in_map_iff in Hin. destruct Hin as [x [Hx Hin]].
    apply in_map_iff. exists x. split; [exact Hx |].
    rewrite <- (firstn_skipn k l). apply in_or_app. left. exact Hin.
  - apply IH. cbn [map] in H. apply NoDup_cons_iff in H. apply H.
Qed.

Lemma filter_firstn {A : Type} (f : A -> bool) (k : nat) (l : list A) :
  exists j : nat, filter f (firstn k l) = firstn j (filter f l).
Proof.
  revert k. induction l as [| a l IH]; intros [| k]; cbn [firstn filter].
  - exists 0%nat. reflexivity.
  - exists 0%nat. reflexivity.
  - exists 0%nat. reflexivity.
  - destruct (IH k) as [j Hj]. destruct (f a).
    + exists (S j). cbn [firstn]. rewrite Hj. reflexivity.
    + exists j. exact Hj.
Qed.

Lemma filter_swap {A : Type} (f g : A -> bool) (l : list A) :
  filter f (filter g l) = filter g (filter f l).
Proof.
  induction l as [| a l IH]; cbn [filter]; [reflexivity |].
  destruct (f a) eqn:Ef, (g a) eqn:Eg; cbn [filter];
    rewrite ?Ef, ?Eg, IH; reflexivity.
Qed.

Lemma filter_andb {A : Type} (f g : A -> bool) (l : list A) :
  filter (fun a => f a && g a) l = filter g (filter f l).
Proof.
  induction l as [| a l IH]; cbn [filter]; [reflexivity |].
  destruct (f a); cbn [andb filter]; [| exact IH].
  destruct (g a); rewrite IH; reflexivity.
Qed.

(** ** The matching loop: its calls *)

Section ClosestLoopCalls.
Context {W : Type}.
Variable h : forall X : Type, Cmd X -> W -> X * W.
Variables count d : number.

Lemma closestLoop_calls (vds : list VehicleDistance) :
  forall (closest : list VehicleOffer) (w : W),
  exists made : list VehicleOffer,
    result h (closestLoop count d vds closest) w = closest ++ made
    /\ trace h (closestLoop count d vds closest) w = map reviewsCallOf made.
Proof.
  induction vds as [| vd rest IH]; intros closest w.
  - exists []. cbn. rewrite app_nil_r. split; reflexivity.
  - cbn [closestLoop]. destruct (booked (vd_vehicle vd)); [apply IH |].
    cbn [bind await]. rewrite result_Await, trace_Await.
    set (rs := fst (h _ (GetVehicleReviews (uuid (vd_vehicle vd))) w)).
    set (w1 := snd (h _ (GetVehicleReviews (uuid (vd_vehicle vd))) w)).
    destruct (lengthIs (closest ++ [offerOf d vd rs]) count).
    + exists [offerOf d vd rs]. split; reflexivity.
    + destruct (IH (closest ++ [offerOf d vd rs]) w1) as [made [Hr Ht]].
      exists (offerOf d vd rs :: made). rewrite Hr, Ht, <- app_assoc.
      split; reflexivity.
Qed.
End ClosestLoopCalls.

Lemma noStorageCall_reviews (os : list VehicleOffer) :
  noStorageCall (map reviewsCallOf os) = true.
Proof. induction os as [| o os IH]; [reflexivity | exact IH]. Qed.

(** ** findClosestVehicles, further *)

(** X1.  For a whole [count] of at least one, [findClosestVehicles] returns
    min(count, number of unbooked candidates) offers. *)
Theorem findClosestVehicles_whole_count :
  forall (W : Type) (h : forall X : Type, Cmd X -> W -> X * W)
         (calculateDistance : Position.t -> Position.t -> number)
         (userPosition : Position.t) (vehicles : list Vehicle)
         (n : nat) (distanceToDestination : number) (w : W),
    (1 <= n)%nat ->
    length (result h (findClosestVehicles calculateDistance userPosition vehicles
                        (inject_Z (Z.of_nat n)) distanceToDestination) w)
    = Nat.min n (length (filter unbooked vehicles)).
Proof.
  intros W h cd pos vs n d w Hn.
  apply findClosestVehicles_length; [exact Hn | reflexivity].
Qed.

Lemma findClosestVehicles_whole_count_witness :
  (1 <= 5)%nat
  /\ length (result handle
               (findClosestVehicles taxicabDistance rider fleet
                  (inject_Z (Z.of_nat 5)) 10) world0)
     = Nat.min 5 (length (filter unbooked fleet)).
Proof.
  assert (H : (1 <= 5)%nat) by lia.
  split; [exact H |].
  apply (findClosestVehicles_whole_count
           World handle taxicabDistance rider fleet 5 10 world0 H).
Defined.

(** X2.  The offers are the closest unbooked candidates: an unbooked
    candidate that is not offered is at least as far from the user as every
    offer. *)
Theorem findClosestVehicles_closest :
  forall (W : Type) (h : forall X : Type, Cmd X -> W -> X * W)
         (calculateDistance : Position.t -> Position.t -> number)
         (userPosition : Position.t) (vehicles : list Vehicle)
         (count distanceToDestination : number) (w : W)
         (o : VehicleOffer) (v : Vehicle),
    In o (result h (findClosestVehicles calculateDistance userPosition vehicles
                      count distanceToDestination) w) ->
    In v vehicles ->
    booked v = false ->
    In v (map vehicle
            (result h (findClosestVehicles calculateDistance userPosition
                         vehicles count distanceToDestination) w))
    \/ distanceToDriver o <= calculateDistance userPosition (asPosition v).
Proof.
  intros W h cd pos vs count d w o v Ho Hv Hb.
  destruct (offers_prefix h cd pos vs count d w) as [k Hk].
  set (L := filter unbookedAt (array_sort compareDistance (distancesFrom cd pos vs))) in *.
  set (vdv := {| vd_vehicle := v; distance := cd pos (asPosition v) |}).
  assert (HvL : In vdv L).
  { apply filter_In. split.
    - apply (Permutation_in _ (array_sort_Permutation compareDistance _)).
      unfold distancesFrom. apply in_map_iff. exists v. split; [reflexivity | exact Hv].
    - unfold unbookedAt, unbooked. cbn. rewrite Hb. reflexivity. }
  assert (HoL : In (ranked o) (firstn k L)).
  { rewrite <- Hk. apply in_map. exact Ho. }
  rewrite <- (firstn_skipn k L) in HvL. apply in_app_or in HvL.
  destruct HvL as [Hin | Hin].
  - left. rewrite <- Hk in Hin. apply in_map_iff in Hin.
    destruct Hin as [o' [Ho' Hin]]. apply in_map_iff. exists o'.
    split; [| exact Hin]. change (vehicle o') with (vd_vehicle (ranked o')).
    rewrite Ho'. reflexivity.
  - right.
    assert (HS : StronglySorted (leKey distance) (firstn k L ++ skipn k L)).
    { rewrite firstn_skipn. apply StronglySorted_filter, sorted_by_distance. }
    apply (StronglySorted_app_le _ _ _ HS (ranked o) vdv HoL Hin).
Qed.

Lemma findClosestVehicles_closest_witness :
  In V2 (map vehicle
           (result handle (findClosestVehicles taxicabDistance rider fleet 1 10)
              world0))
  \/ distanceToDriver (offerOf 10 {| vd_vehicle := V1; distance := 0 |}
                         (reviewService world0 (uuid V1)))
     <= taxicabDistance rider (asPosition V2).
Proof.
  apply (findClosestVehicles_closest
           World handle taxicabDistance rider fleet 1 10 world0).
  - left. reflexivity.
  - right. left. reflexivity.
  - reflexivity.
Defined.

(** X3.  Every offer is made for one of the candidates, and its
    [distanceToDriver] is the distance that the position service computes
    from the user to that vehicle. *)
Theorem findClosestVehicles_candidates :
  forall (W : Type) (h : forall X : Type, Cmd X -> W -> X * W)
         (calculateDistance : Position.t -> Position.t -> number)
         (userPosition : Position.t) (vehicles : list Vehicle)
         (count distanceToDestination : number) (w : W),
    Forall (fun o =>
              In (vehicle o) vehicles
              /\ distanceToDriver o
                 = calculateDistance userPosition (asPosition (vehicle o)))
      (result h (findClosestVehicles calculateDistance userPosition vehicles
                   count distanceToDestination) w).
Proof.
  intros W h cd pos vs count d w.
  destruct (offers_prefix h cd pos vs count d w) as [k Hk].
  apply Forall_forall. intros o Ho.
  assert (Hin : In (ranked o) (distancesFrom cd pos vs)).
  { apply (Permutation_in _
             (Permutation_sym (array_sort_Permutation compareDistance _))).
    apply (in_map ranked) in Ho. rewrite Hk in Ho.
    assert (Hf : In (ranked o)
                   (filter unbookedAt
                      (array_sort compareDistance (distancesFrom cd pos vs)))).
    { rewrite <- (firstn_skipn k). apply in_or_app. left. exact Ho. }
    apply filter_In in Hf. apply Hf. }
  unfold distancesFrom in Hin. apply in_map_iff in Hin.
  destruct Hin as [v [Hv Hin]].
  assert (E1 : vehicle o = v) by (change (vehicle o) with (vd_vehicle (ranked o));
                                  rewrite <- Hv; reflexivity).
  assert (E2 : distanceToDriver o = cd pos (asPosition v))
    by (change (distanceToDriver o) with (distance (ranked o));
        rewrite <- Hv; reflexivity).
  rewrite E1. split; assumption.
Qed.

(** X4.  The calls of [findClosestVehicles] are exactly one review lookup
    for each returned offer, in the order of the offers: a vehicle that is
    booked or beyond the break is never looked up, and neither the cache
    nor the vehicle storage is called. *)
Theorem findClosestVehicles_calls :
  forall (W : Type) (h : forall X : Type, Cmd X -> W -> X * W)
         (calculateDistance : Position.t -> Position.t -> number)
         (userPosition : Position.t) (vehicles : list Vehicle)
         (count distanceToDestination : number) (w : W),
    trace h (findClosestVehicles calculateDistance userPosition vehicles
               count distanceToDestination) w
    = map reviewsCallOf
        (result h (findClosestVehicles calculateDistance userPosition vehicles
                     count distanceToDestination) w)
    /\ noStorageCall
         (trace h (findClosestVehicles calculateDistance userPosition vehicles
                     count distanceToDestination) w) = true.
Proof.
  intros W h cd pos vs count d w. unfold findClosestVehicles. cbv zeta.
  destruct (closestLoop_calls h count d
              (array_sort compareDistance (distancesFrom cd pos vs)) [] w)
    as [made [Hr Ht]].
  rewrite Hr, Ht. cbn [app]. split; [reflexivity | apply noStorageCall_reviews].
Qed.

(** X5.  When the candidates have pairwise different uuids, so have the
    vehicles of the offers: no vehicle is offered twice. *)
Theorem findClosestVehicles_no_duplicate :
  forall (W : Type) (h : forall X : Type, Cmd X -> W -> X * W)
         (calculateDistance : Position.t -> Position.t -> number)
         (userPosition : Position.t) (vehicles : list Vehicle)
         (count distanceToDestination : number) (w : W),
    NoDup (map uuid vehicles) ->
    NoDup (map (fun o => uuid (vehicle o))
             (result h (findClosestVehicles calculateDistance userPosition
                          vehicles count distanceToDestination) w)).
Proof.
  intros W h cd pos vs count d w Hnd.
  destruct (offers_prefix h cd pos vs count d w) as [k Hk].
  replace (map (fun o => uuid (vehicle o))
             (result h (findClosestVehicles cd pos vs count d) w))
    with (map (fun vd => uuid (vd_vehicle vd))
            (map ranked (result h (findClosestVehicles cd pos vs count d) w)))
    by (rewrite map_map; reflexivity).
  rewrite Hk. apply NoDup_map_firstn, NoDup_map_filter.
  rewrite <- (map_map vd_vehicle uuid).
  apply (Permutation_NoDup
           (Permutation_map uuid (sorted_vehicles cd pos vs)) Hnd).
Qed.

Lemma findClosestVehicles_no_duplicate_witness :
  NoDup (map uuid fleet)
  /\ NoDup (map (fun o => uuid (vehicle o))
              (result handle (findClosestVehicles taxicabDistance rider fleet 2 10)
                 world0)).
Proof.
  assert (H : NoDup (map uuid fleet)).
  { cbn. repeat constructor; cbn; intuition discriminate. }
  split; [exact H |].
  apply (findClosestVehicles_no_duplicate
           World handle taxicabDistance rider fleet 2 10 world0 H).
Defined.

(** X6.  When [count] is not a whole number, no array length ever equals
    it: every unbooked candidate is offered, in the order of the sorted
    array. *)
Theorem findClosestVehicles_fractional_count :
  forall (W : Type) (h : forall X : Type, Cmd X -> W -> X * W)
         (calculateDistance : Position.t -> Position.t -> number)
         (userPosition : Position.t) (vehicles : list Vehicle)
         (count distanceToDestination : number) (w : W),
    (forall n : nat, ~ inject_Z (Z.of_nat n) == count) ->
    map ranked
      (result h (findClosestVehicles calculateDistance userPosition vehicles
                   count distanceToDestination) w)
    = filter unbookedAt
        (array_sort compareDistance
           (distancesFrom calculateDistance userPosition vehicles))
    /\ length
         (result h (findClosestVehicles calculateDistance userPosition vehicles
                      count distanceToDestination) w)
       = length (filter unbooked vehicles).
Proof.
  intros W h cd pos vs count d w Hc.
  assert (E : map ranked (result h (findClosestVehicles cd pos vs count d) w)
              = filter unbookedAt
                  (array_sort compareDistance (distancesFrom cd pos vs))).
  { apply (closestLoop_all h count d _ [] w).
    intros m _. destruct (Qeq_bool (inject_Z (Z.of_nat m)) count) eqn:Em;
      [| reflexivity].
    apply Qeq_bool_iff in Em. destruct (Hc m Em). }
  split; [exact E |].
  rewrite <- (length_map ranked), E.
  rewrite (Permutation_length (unbooked_sorted cd pos vs)), length_map.
  reflexivity.
Qed.

Lemma findClosestVehicles_fractional_count_witness :
  (forall n : nat, ~ inject_Z (Z.of_nat n) == 3 # 2)
  /\ length
       (result handle (findClosestVehicles taxicabDistance rider fleet (3 # 2) 10)
          world0)
     = length (filter unbooked fleet).
Proof.
  assert (H : forall n : nat, ~ inject_Z (Z.of_nat n) == 3 # 2).
  { intros n. unfold Qeq. cbn. lia. }
  split; [exact H |].
  apply (findClosestVehicles_fractional_count
           World handle taxicabDistance rider fleet (3 # 2) 10 world0 H).
Defined.

(** X7.  Ties keep the order of the candidates: for every distance [q], the
    vehicles offered at that distance are the first unbooked candidates at
    that distance, in the order they have in the candidate array. *)
Theorem findClosestVehicles_ties :
  forall (W : Type) (h : forall X : Type, Cmd X -> W -> X * W)
         (calculateDistance : Position.t -> Position.t -> number)
         (userPosition : Position.t) (vehicles : list Vehicle)
         (count distanceToDestination : number) (w : W) (q : number),
  exists j : nat,
    map vehicle
      (filter (offeredAt q)
         (result h (findClosestVehicles calculateDistance userPosition vehicles
                      count distanceToDestination) w))
    = firstn j
        (filter (fun v =>
                   unbooked v
                   && Qeq_bool (calculateDistance userPosition (asPosition v)) q)
           vehicles).
Proof.
  intros W h cd pos vs count d w q.
  destruct (offers_prefix h cd pos vs count d w) as [k Hk].
  set (atq := fun vd : VehicleDistance => Qeq_bool (distance vd) q).
  destruct (filter_firstn atq k
              (filter unbookedAt
                 (array_sort compareDistance (distancesFrom cd pos vs))))
    as [j Hj].
  exists j.
  assert (E1 : map vehicle
                 (filter (offeredAt q)
                    (result h (findClosestVehicles cd pos vs count d) w))
               = map vd_vehicle
                   (filter atq
                      (map ranked
                         (result h (findClosestVehicles cd pos vs count d) w)))).
  { rewrite <- (map_filter_swap ranked atq), map_map. reflexivity. }
  rewrite E1, Hk, Hj, filter_swap.
  rewrite (array_sort_stable compareDistance distance
             (fun a b => Qeq_refl _) atq).
  2:{ intros a b Ha Hb. unfold atq in *.
      apply Qeq_bool_iff in Ha. apply Qeq_bool_iff in Hb.
      rewrite Ha, Hb. reflexivity. }
  rewrite <- firstn_map. f_equal.
  rewrite filter_swap, <- filter_andb.
  unfold distancesFrom.
  rewrite <- (map_filter_swap
                (fun vehicle =>
                   {| vd_vehicle := vehicle
                    ; distance := cd pos (asPosition vehicle) |})
                (fun vd => unbookedAt vd && atq vd)).
  rewrite map_map. cbn [vd_vehicle]. rewrite map_id. reflexivity.
Qed.

(** ** The registry, further *)

Lemma CacheService_get_set_other (id : string) (v : Vehicle) (c : CacheService.t) :
  id <> uuid v ->
  CacheService.get id (CacheService.set v c) = CacheService.get id c.
Proof.
  intro Hne. unfold CacheService.get, CacheService.set. cbn.
  induction (CacheService.entries c) as [| [k x] es IH]; cbn.
  - destruct (String.eqb (uuid v) id) eqn:E; [| reflexivity].
    apply String.eqb_eq in E. congruence.
  - destruct (String.eqb k (uuid v)) eqn:Ek; cbn.
    + apply String.eqb_eq in Ek. subst k.
      destruct (String.eqb (uuid v) id) eqn:E; [| reflexivity].
      apply String.eqb_eq in E. congruence.
    + destruct (String.eqb k id); [reflexivity | exact IH].
Qed.

Lemma VehicleModel_updateOne_uuids (v : Vehicle) (m : VehicleModel.t) :
  map uuid (VehicleModel.updateOne (uuid v) v m) = map uuid m.
Proof.
  induction m as [| x m IH]; cbn; [reflexivity |].
  destruct (String.eqb (uuid x) (uuid v)) eqn:E; cbn.
  - apply String.eqb_eq in E. rewrite E. reflexivity.
  - rewrite IH. reflexivity.
Qed.

Lemma VehicleModel_updateOne_unknown (id : string) (v : Vehicle)
    (m : VehicleModel.t) :
  ~ In id (map uuid m) -> VehicleModel.updateOne id v m = m.
Proof.
  induction m as [| x m IH]; cbn; intro Hn; [reflexivity |].
  destruct (String.eqb (uuid x) id) eqn:E.
  - apply String.eqb_eq in E. destruct Hn. left. exact E.
  - rewrite IH; [reflexivity |]. intro Hin. apply Hn. right. exact Hin.
Qed.

Lemma VehicleModel_findOne_updateOne (v : Vehicle) (m : VehicleModel.t) :
  In (uuid v) (map uuid m) ->
  VehicleModel.findOne (uuid v) (VehicleModel.updateOne (uuid v) v m) = Some v.
Proof.
  unfold VehicleModel.findOne.
  induction m as [| x m IH]; cbn; intro Hin; [destruct Hin |].
  destruct (String.eqb (uuid x) (uuid v)) eqn:E; cbn.
  - rewrite String.eqb_refl. reflexivity.
  - rewrite E. apply IH. destruct Hin as [Hx | Hin]; [| exact Hin].
    rewrite Hx, String.eqb_refl in E. discriminate.
Qed.

Lemma VehicleModel_findOne_updateOne_other (id : string) (v : Vehicle)
    (m : VehicleModel.t) :
  id <> uuid v ->
  VehicleModel.findOne id (VehicleModel.updateOne (uuid v) v m)
  = VehicleModel.findOne id m.
Proof.
  intro Hne. unfold VehicleModel.findOne.
  induction m as [| x m IH]; cbn; [reflexivity |].
  destruct (String.eqb (uuid x) (uuid v)) eqn:E; cbn.
  - apply String.eqb_eq in E.
    destruct (String.eqb (uuid v) id) eqn:E1;
      [apply String.eqb_eq in E1; congruence |].
    rewrite E, E1. reflexivity.
  - destruct (String.eqb (uuid x) id); [reflexivity | exact IH].
Qed.

(** X8.  After [finishRide v newLocation], while the cache is loaded,
    [getVehicle] on the uuid of [v] answers from the cache, without the
    storage, the record of [v] unbooked and at [newLocation], with its
    uuid and its prices unchanged. *)
Theorem finishRide_then_getVehicle :
  forall (v : Vehicle) (newLocation : Position.t) (w : World),
    let w' := final handle (finishRide v newLocation) w in
    CacheService.isEmpty (cacheService w') = false ->
    exists v' : Vehicle,
      result handle (getVehicle (uuid v)) w' = Some v'
      /\ booked v' = false
      /\ asPosition v' = newLocation
      /\ uuid v' = uuid v
      /\ startPrice v' = startPrice v
      /\ pricePerKM v' = pricePerKM v
      /\ noStorageCall (trace handle (getVehicle (uuid v)) w') = true.
Proof.
  intros v loc w w' Hloaded.
  set (v' := setBooked false
               (setLatitude (Position.latitude loc)
                  (setLongitude (Position.longitude loc) v))).
  assert (Hget : CacheService.get (uuid v) (cacheService w') = Some v').
  { subst w'. unfold final, finishRide. cbn.
    apply (CacheService_get_set v'). }
  clearbody w'. exists v'.
  unfold result, trace, getVehicle. cbn.
  rewrite Hloaded. cbn. rewrite Hget.
  destruct loc. repeat split.
Qed.

Lemma finishRide_then_getVehicle_witness :
  CacheService.isEmpty
    (cacheService
       (final handle (finishRide V3 rider) (final handle getAllVehicles world0)))
  = false
  /\ exists v' : Vehicle,
       result handle (getVehicle (uuid V3))
         (final handle (finishRide V3 rider) (final handle getAllVehicles world0))
       = Some v'
       /\ booked v' = false
       /\ asPosition v' = rider
       /\ uuid v' = uuid V3
       /\ startPrice v' = startPrice V3
       /\ pricePerKM v' = pricePerKM V3
       /\ noStorageCall
            (trace handle (getVehicle (uuid V3))
               (final handle (finishRide V3 rider)
                  (final handle getAllVehicles world0))) = true.
Proof.
  assert (H : CacheService.isEmpty
                (cacheService
                   (final handle (finishRide V3 rider)
                      (final handle getAllVehicles world0)))
              = false) by reflexivity.
  split; [exact H |].
  apply (finishRide_then_getVehicle V3 rider
           (final handle getAllVehicles world0) H).
Defined.

(** X9.  When [book v] runs before the cache is loaded, a following
    [getVehicle] reads the storage and finds [v] booked there, provided the
    storage holds a vehicle with the uuid of [v]. *)
Theorem book_then_getVehicle_from_storage :
  forall (v : Vehicle) (w : World),
    let w' := final handle (book v) w in
    CacheService.isEmpty (cacheService w') = true ->
    In (uuid v) (map uuid (vehicleModel w)) ->
    result handle (getVehicle (uuid v)) w' = Some (setBooked true v)
    /\ trace handle (getVehicle (uuid v)) w'
       = [call CacheIsEmpty; call (VehicleFindOne (uuid v))].
Proof.
  intros v w w' Hempty Hin.
  assert (Hfind : VehicleModel.findOne (uuid v) (vehicleModel w')
                  = Some (setBooked true v)).
  { subst w'. unfold final, book. cbn.
    apply (VehicleModel_findOne_updateOne (setBooked true v)). exact Hin. }
  clearbody w'.
  unfold result, trace, getVehicle. cbn.
  rewrite Hempty. cbn. rewrite Hfind. split; reflexivity.
Qed.

Lemma book_then_getVehicle_from_storage_witness :
  CacheService.isEmpty (cacheService (final handle (book V2) world0)) = true
  /\ In (uuid V2) (map uuid (vehicleModel world0))
  /\ result handle (getVehicle (uuid V2)) (final handle (book V2) world0)
     = Some (setBooked true V2).
Proof.
  assert (H1 : CacheService.isEmpty
                 (cacheService (final handle (book V2) world0)) = true)
    by reflexivity.
  assert (H2 : In (uuid V2) (map uuid (vehicleModel world0)))
    by (right; left; reflexivity).
  split; [exact H1 |]. split; [exact H2 |].
  apply (book_then_getVehicle_from_storage V2 world0 H1 H2).
Defined.

(** X10.  [book] and [finishRide] never add or remove a stored vehicle nor
    change a stored uuid: the uuids in storage are the same, in the same
    order, before and after. *)
Theorem storage_uuids_kept :
  forall (v : Vehicle) (newLocation : Position.t) (w : World),
    map uuid (vehicleModel (final handle (book v) w))
    = map uuid (vehicleModel w)
    /\ map uuid (vehicleModel (final handle (finishRide v newLocation) w))
       = map uuid (vehicleModel w).
Proof.
  intros v loc w. unfold final, book, finishRide. cbn. split.
  - apply (VehicleModel_updateOne_uuids (setBooked true v)).
  - apply (VehicleModel_updateOne_uuids
             (setBooked false
                (setLatitude (Position.latitude loc)
                   (setLongitude (Position.longitude loc) v)))).
Qed.

(** X11.  For a vehicle whose uuid the storage does not hold, [book] and
    [finishRide] leave the storage as it is (the update is no upsert). *)
Theorem unknown_vehicle_not_stored :
  forall (v : Vehicle) (newLocation : Position.t) (w : World),
    ~ In (uuid v) (map uuid (vehicleModel w)) ->
    vehicleModel (final handle (book v) w) = vehicleModel w
    /\ vehicleModel (final handle (finishRide v newLocation) w) = vehicleModel w.
Proof.
  intros v loc w Hn. unfold final, book, finishRide. cbn.
  split; apply VehicleModel_updateOne_unknown; exact Hn.
Qed.

Lemma unknown_vehicle_not_stored_witness :
  ~ In (uuid V1) (map uuid (vehicleModel (withVehicles [V2; V3] world0)))
  /\ vehicleModel (final handle (book V1) (withVehicles [V2; V3] world0))
     = [V2; V3].
Proof.
  assert (H : ~ In (uuid V1)
                (map uuid (vehicleModel (withVehicles [V2; V3] world0)))).
  { cbn. intuition discriminate. }
  split; [exact H |].
  apply (unknown_vehicle_not_stored V1 rider (withVehicles [V2; V3] world0) H).
Defined.

(** X12.  [book v] changes what [getVehicle] answers for the uuid of [v]
    only: for every other id the answer is the same before and after,
    whether it comes from the cache or from the storage. *)
Theorem book_other_vehicles :
  forall (v : Vehicle) (id : string) (w : World),
    id <> uuid v ->
    result handle (getVehicle id) (final handle (book v) w)
    = result handle (getVehicle id) w.
Proof.
  intros v id w Hne.
  set (w' := final handle (book v) w).
  assert (He : CacheService.isEmpty (cacheService w')
               = CacheService.isEmpty (cacheService w)) by reflexivity.
  assert (Hs : VehicleModel.findOne id (vehicleModel w')
               = VehicleModel.findOne id (vehicleModel w)).
  { subst w'. unfold final, book. cbn.
    apply (VehicleModel_findOne_updateOne_other id (setBooked true v)).
    exact Hne. }
  assert (Hc : CacheService.get id (cacheService w')
               = CacheService.get id (cacheService w)).
  { subst w'. unfold final, book. cbn.
    apply (CacheService_get_set_other id (setBooked true v)). exact Hne. }
  clearbody w'. unfold result, getVehicle. cbn. rewrite He.
  destruct (CacheService.isEmpty (cacheService w)); cbn; assumption.
Qed.

Lemma book_other_vehicles_witness :
  uuid V2 <> uuid V1
  /\ result handle (getVehicle (uuid V2)) (final handle (book V1) world0)
     = Some V2.
Proof.
  assert (H : uuid V2 <> uuid V1) by discriminate.
  split; [exact H |].
  apply (book_other_vehicles V1 (uuid V2) world0 H).
Defined.

(** X13.  [getVehicle] changes nothing, and on a never loaded cache it
    answers null for an id that no stored vehicle has, with one lookup in
    the storage and no load of the fleet into the cache. *)
Theorem getVehicle_unknown :
  forall (id : string) (w : World),
    CacheService.isEmpty (cacheService w) = true ->
    ~ In id (map uuid (vehicleModel w)) ->
    result handle (getVehicle id) w = None
    /\ final handle (getVehicle id) w = w
    /\ trace handle (getVehicle id) w
       = [call CacheIsEmpty; call (VehicleFindOne id)].
Proof.
  intros id w Hempty Hn. unfold result, final, trace, getVehicle. cbn.
  rewrite Hempty. cbn. repeat split.
  unfold VehicleModel.findOne.
  destruct (find (fun v => String.eqb (uuid v) id) (vehicleModel w)) as [v |] eqn:E;
    [| reflexivity].
  apply find_some in E. destruct E as [Hin E]. apply String.eqb_eq in E.
  destruct Hn. apply in_map_iff. exists v. split; assumption.
Qed.

Lemma getVehicle_unknown_witness :
  CacheService.isEmpty (cacheService world0) = true
  /\ ~ In "v9"%string (map uuid (vehicleModel world0))
  /\ result handle (getVehicle "v9"%string) world0 = None.
Proof.
  assert (H1 : CacheService.isEmpty (cacheService world0) = true) by reflexivity.
  assert (H2 : ~ In "v9"%string (map uuid (vehicleModel world0))).
  { cbn. intuition discriminate. }
  split; [exact H1 |]. split; [exact H2 |].
  apply (getVehicle_unknown "v9"%string world0 H1 H2).
Defined.

(** ** ReviewService: getAllReviews *)

Lemma filter_negb_length {A : Type} (f : A -> bool) (l : list A) :
  (length (filter f l) + length (filter (fun a => negb (f a)) l) = length l)%nat.
Proof.
  induction l as [| a l IH]; cbn [filter]; [reflexivity |].
  destruct (f a); cbn [negb length]; lia.
Qed.

Lemma distribute_fold (reviews : list Joined.t) (acc : ReviewsByStatus) :
  fold_left distribute reviews acc
  = {| completed := completed acc ++ map reviewDtoOf (filter isCompleted reviews)
     ; pending :=
         pending acc
         ++ map reviewDtoOf (filter (fun j => negb (isCompleted j)) reviews) |}.
Proof.
  revert acc. induction reviews as [| j reviews IH]; intro acc; cbn [fold_left filter].
  - cbn. rewrite !app_nil_r. destruct acc. reflexivity.
  - rewrite IH. unfold distribute, isCompleted.
    destruct (Review.completed (Joined.review j));
      cbn [negb map completed pending]; rewrite <- ?app_assoc; reflexivity.
Qed.

Lemma orElse_not_empty (s : option string) (fallback : string) :
  fallback <> EmptyString -> orElse s fallback <> EmptyString.
Proof.
  intro H. destruct s as [[| a s] |]; cbn; [exact H | discriminate | exact H].
Qed.

Lemma getAllReviews_partition_aux {W : Type}
    (h : forall X : Type, ReviewCmd X -> W -> X * W) (email : string) (w : W) :
  completed (reviewResult h (ReviewService.getAllReviews email) w)
  = map reviewDtoOf (filter isCompleted (fst (h _ (ReviewAggregate email) w)))
  /\ pending (reviewResult h (ReviewService.getAllReviews email) w)
     = map reviewDtoOf
         (filter (fun j => negb (isCompleted j))
            (fst (h _ (ReviewAggregate email) w))).
Proof.
  assert (E : reviewResult h (ReviewService.getAllReviews email) w
              = fold_left distribute (fst (h _ (ReviewAggregate email) w))
                  {| completed := []; pending := [] |}).
  { unfold reviewResult, ReviewService.getAllReviews.
    cbn. destruct (h _ (ReviewAggregate email) w). reflexivity. }
  rewrite E, distribute_fold. split; reflexivity.
Qed.

(** X14.  [getAllReviews] makes one call, the aggregate, and sorts every
    review it answers into exactly one of the two arrays: [completed] holds
    the dtos of the reviews whose completion flag is set, [pending] the dtos
    of the others, both in the order of the answer. *)
Theorem getAllReviews_partition :
  forall (W : Type) (h : forall X : Type, ReviewCmd X -> W -> X * W)
         (email : string) (w : W),
    let reviews := fst (h _ (ReviewAggregate email) w) in
    let answer := reviewResult h (ReviewService.getAllReviews email) w in
    completed answer = map reviewDtoOf (filter isCompleted reviews)
    /\ pending answer
       = map reviewDtoOf (filter (fun j => negb (isCompleted j)) reviews)
    /\ (length (completed answer) + length (pending answer) = length reviews)%nat
    /\ reviewTrace h (ReviewService.getAllReviews email) w
       = [reviewCall (ReviewAggregate email)].
Proof.
  intros W h email w reviews answer.
  destruct (getAllReviews_partition_aux h email w) as [Hc Hp].
  fold answer reviews in Hc, Hp. rewrite Hc, Hp.
  repeat split.
  - rewrite !length_map. apply filter_negb_length.
  - unfold reviewTrace, ReviewService.getAllReviews. cbn.
    destruct (h _ (ReviewAggregate email) w). reflexivity.
Qed.

(** X15.  In every dto that [getAllReviews] returns, the four vehicle
    fields are non-empty strings: a missing vehicle or an empty field is
    replaced by its "not found" text. *)
Theorem getAllReviews_vehicle_texts :
  forall (W : Type) (h : forall X : Type, ReviewCmd X -> W -> X * W)
         (email : string) (w : W),
    let answer := reviewResult h (ReviewService.getAllReviews email) w in
    Forall (fun dto =>
              ReviewDto.vehicleId (ReviewDto.vehicle dto) <> EmptyString
              /\ ReviewDto.brand (ReviewDto.vehicle dto) <> EmptyString
              /\ ReviewDto.firstName (ReviewDto.vehicle dto) <> EmptyString
              /\ ReviewDto.lastName (ReviewDto.vehicle dto) <> EmptyString)
      (completed answer ++ pending answer).
Proof.
  intros W h email w answer.
  destruct (getAllReviews_partition_aux h email w) as [Hc Hp].
  fold answer in Hc, Hp. rewrite Hc, Hp.
  apply Forall_app. split; apply Forall_forall; intros dto Hin;
    apply in_map_iff in Hin; destruct Hin as [j [<- _]];
    cbn; repeat split; apply orElse_not_empty; discriminate.
Qed.

(** ** ReviewService: the review collection *)

Lemma aggregate_app (email : string) (vehicles : list Vehicle)
    (m1 m2 : ReviewModel.t) :
  ReviewModel.aggregate email vehicles (m1 ++ m2)
  = ReviewModel.aggregate email vehicles m1
    ++ ReviewModel.aggregate email vehicles m2.
Proof. unfold ReviewModel.aggregate. rewrite filter_app, map_app. reflexivity. Qed.

Lemma getAllReviews_World (email : string) (w : World) :
  reviewResult handleReview (ReviewService.getAllReviews email) w
  = fold_left distribute
      (ReviewModel.aggregate email (vehicleModel w) (reviewModel w))
      {| completed := []; pending := [] |}.
Proof. reflexivity. Qed.

Lemma ReviewModel_updateOne_uuids (r : Review.t) (m : ReviewModel.t) :
  map Review.uuid (ReviewModel.updateOne (Review.uuid r) r m) = map Review.uuid m.
Proof.
  induction m as [| x m IH]; cbn; [reflexivity |].
  destruct (String.eqb (Review.uuid x) (Review.uuid r)) eqn:E; cbn.
  - apply String.eqb_eq in E. rewrite E. reflexivity.
  - rewrite IH. reflexivity.
Qed.

Lemma ReviewModel_updateOne_unknown (id : string) (r : Review.t)
    (m : ReviewModel.t) :
  ~ In id (map Review.uuid m) -> ReviewModel.updateOne id r m = m.
Proof.
  induction m as [| x m IH]; cbn; intro Hn; [reflexivity |].
  destruct (String.eqb (Review.uuid x) id) eqn:E.
  - apply String.eqb_eq in E. destruct Hn. left. exact E.
  - rewrite IH; [reflexivity |]. intro Hin. apply Hn. right. exact Hin.
Qed.

Lemma ReviewModel_findOne_unknown (id : string) (m : ReviewModel.t) :
  ~ In id (map Review.uuid m) -> ReviewModel.findOne id m = None.
Proof.
  intro Hn. unfold ReviewModel.findOne.
  destruct (find (fun r => String.eqb (Review.uuid r) id) m) as [r |] eqn:E;
    [| reflexivity].
  apply find_some in E. destruct E as [Hin E]. apply String.eqb_eq in E.
  destruct Hn. apply in_map_iff. exists r. split; assumption.
Qed.

Lemma ReviewModel_findOne_updateOne (r old : Review.t) (m : ReviewModel.t) :
  ReviewModel.findOne (Review.uuid r) m = Some old ->
  ReviewModel.findOne (Review.uuid r) (ReviewModel.updateOne (Review.uuid r) r m)
  = Some (ReviewModel.assign r old).
Proof.
  unfold ReviewModel.findOne.
  induction m as [| x m IH]; cbn; intro H; [discriminate |].
  destruct (String.eqb (Review.uuid x) (Review.uuid r)) eqn:E; cbn.
  - rewrite String.eqb_refl. congruence.
  - rewrite E. apply IH, H.
Qed.

Lemma ReviewModel_findOne_updateOne_other (id : string) (r : Review.t)
    (m : ReviewModel.t) :
  id <> Review.uuid r ->
  ReviewModel.findOne id (ReviewModel.updateOne (Review.uuid r) r m)
  = ReviewModel.findOne id m.
Proof.
  intro Hne. unfold ReviewModel.findOne.
  induction m as [| x m IH]; cbn; [reflexivity |].
  destruct (String.eqb (Review.uuid x) (Review.uuid r)) eqn:E; cbn.
  - apply String.eqb_eq in E.
    destruct (String.eqb (Review.uuid r) id) eqn:E1;
      [apply String.eqb_eq in E1; congruence |].
    rewrite E, E1. reflexivity.
  - destruct (String.eqb (Review.uuid x) id); [reflexivity | exact IH].
Qed.

Lemma ReviewModel_updateOne_last (r x : Review.t) (m : ReviewModel.t) :
  ~ In (Review.uuid r) (map Review.uuid m) ->
  Review.uuid x = Review.uuid r ->
  ReviewModel.updateOne (Review.uuid r) r (m ++ [x])
  = m ++ [ReviewModel.assign r x].
Proof.
  intros Hn Hx. induction m as [| y m IH]; cbn.
  - rewrite Hx, String.eqb_refl. reflexivity.
  - destruct (String.eqb (Review.uuid y) (Review.uuid r)) eqn:E.
    + apply String.eqb_eq in E. destruct Hn. left. exact E.
    + rewrite IH; [reflexivity |]. intro Hin. apply Hn. right. exact Hin.
Qed.

Lemma aggregate_one (email : string) (vehicles : list Vehicle) (r : Review.t) :
  Review.email r = email ->
  ReviewModel.aggregate email vehicles [r]
  = [ {| Joined.review := r
       ; Joined.vehicle :=
           filter (fun v => String.eqb (uuid v) (Review.vehicleId r)) vehicles |} ].
Proof.
  intros <-. unfold ReviewModel.aggregate. cbn [filter].
  rewrite String.eqb_refl. reflexivity.
Qed.

(** X16.  After [insertReviewRequest email vehicleId price], what
    [getAllReviews email] answers has the same [completed] array as before
    and one more [pending] dto, the last one: it carries the generated uuid,
    the price and the date of the request, and neither rate nor comment. *)
Theorem insertReviewRequest_then_getAllReviews :
  forall (email vehicleId : string) (price : number) (w : World),
    let w' := final handle (insertReviewRequest email vehicleId price) w in
    let before := reviewResult handleReview (ReviewService.getAllReviews email) w in
    let after := reviewResult handleReview (ReviewService.getAllReviews email) w' in
    completed after = completed before
    /\ exists dto : ReviewDto.t,
         pending after = pending before ++ [dto]
         /\ ReviewDto.uuid dto = guidService w (guidsUsed w)
         /\ ReviewDto.price dto = price
         /\ ReviewDto.dateOfRide dto = clock w
         /\ ReviewDto.rate dto = None
         /\ ReviewDto.comment dto = None.
Proof.
  intros email vehicleId price w w' before after.
  subst after before. rewrite !getAllReviews_World.
  assert (Hm : reviewModel w' = reviewModel w
                 ++ [ {| Review.uuid := guidService w (guidsUsed w)
                       ; Review.email := email
                       ; Review.vehicleId := vehicleId
                       ; Review.dateOfRide := clock w
                       ; Review.price := price
                       ; Review.completed := false
                       ; Review.rate := None
                       ; Review.comment := None |} ]) by reflexivity.
  assert (Hv : vehicleModel w' = vehicleModel w) by reflexivity.
  clearbody w'. rewrite Hm, Hv, aggregate_app.
  rewrite aggregate_one by reflexivity.
  rewrite !distribute_fold, !filter_app, !map_app.
  cbn [filter isCompleted Joined.review Review.completed negb map completed
       pending app].
  rewrite app_nil_r.
  split; [reflexivity |].
  eexists. split; [reflexivity |]. repeat split.
Qed.

(** X17.  A review request of one user does not show in what
    [getAllReviews] answers to a user with another email. *)
Theorem insertReviewRequest_other_user :
  forall (email other vehicleId : string) (price : number) (w : World),
    other <> email ->
    reviewResult handleReview (ReviewService.getAllReviews other)
      (final handle (insertReviewRequest email vehicleId price) w)
    = reviewResult handleReview (ReviewService.getAllReviews other) w.
Proof.
  intros email other vehicleId price w Hne.
  set (w' := final handle (insertReviewRequest email vehicleId price) w).
  rewrite !getAllReviews_World.
  assert (Hm : reviewModel w' = reviewModel w
                 ++ [ {| Review.uuid := guidService w (guidsUsed w)
                       ; Review.email := email
                       ; Review.vehicleId := vehicleId
                       ; Review.dateOfRide := clock w
                       ; Review.price := price
                       ; Review.completed := false
                       ; Review.rate := None
                       ; Review.comment := None |} ]) by reflexivity.
  assert (Hv : vehicleModel w' = vehicleModel w) by reflexivity.
  clearbody w'. rewrite Hm, Hv, aggregate_app.
  unfold ReviewModel.aggregate at 2. cbn [filter Review.email].
  destruct (String.eqb email other) eqn:E;
    [apply String.eqb_eq in E; congruence |].
  cbn [map]. rewrite app_nil_r. reflexivity.
Qed.

Lemma insertReviewRequest_other_user_witness :
  "b@x.rs"%string <> "a@x.rs"%string
  /\ reviewResult handleReview (ReviewService.getAllReviews "b@x.rs"%string)
       (final handle (insertReviewRequest "a@x.rs"%string "v1"%string 25) world0)
     = reviewResult handleReview (ReviewService.getAllReviews "b@x.rs"%string)
         world0.
Proof.
  assert (H : "b@x.rs"%string <> "a@x.rs"%string) by discriminate.
  split; [exact H |].
  apply (insertReviewRequest_other_user
           "a@x.rs"%string "b@x.rs"%string "v1"%string 25 world0 H).
Defined.

(** ** ReviewService: get and leaveReview *)

(** X18.  After [leaveReview review], [get] on the uuid of [review] answers
    the document that was stored under that uuid with the fields of
    [review] assigned to it: the completion flag, email, vehicle, date and
    price of [review], and its rate and comment where [review] gives
    them. *)
Theorem leaveReview_then_get :
  forall (review old : Review.t) (w : World),
    reviewResult handleReview (ReviewService.get (Review.uuid review)) w
    = Some old ->
    exists stored : Review.t,
      reviewResult handleReview (ReviewService.get (Review.uuid review))
        (reviewFinal handleReview (ReviewService.leaveReview review) w)
      = Some stored
      /\ Review.uuid stored = Review.uuid review
      /\ Review.completed stored = Review.completed review
      /\ Review.email stored = Review.email review
      /\ Review.vehicleId stored = Review.vehicleId review
      /\ Review.dateOfRide stored = Review.dateOfRide review
      /\ Review.price stored = Review.price review
      /\ Review.rate stored
         = match Review.rate review with
           | Some x => Some x
           | None => Review.rate old
           end
      /\ Review.comment stored
         = match Review.comment review with
           | Some x => Some x
           | None => Review.comment old
           end.
Proof.
  intros review old w Hold.
  exists (ReviewModel.assign review old). split; [| repeat split].
  change (ReviewModel.findOne (Review.uuid review)
            (ReviewModel.updateOne (Review.uuid review) review (reviewModel w))
          = Some (ReviewModel.assign review old)).
  apply ReviewModel_findOne_updateOne. exact Hold.
Qed.

Lemma leaveReview_then_get_witness :
  reviewResult handleReview (ReviewService.get (Review.uuid R1filled)) world1
  = Some R1
  /\ exists stored : Review.t,
       reviewResult handleReview (ReviewService.get (Review.uuid R1filled))
         (reviewFinal handleReview (ReviewService.leaveReview R1filled) world1)
       = Some stored
       /\ Review.completed stored = true
       /\ Review.rate stored = Some 5.
Proof.
  assert (H : reviewResult handleReview
                (ReviewService.get (Review.uuid R1filled)) world1
              = Some R1) by reflexivity.
  split; [exact H |].
  destruct (leaveReview_then_get R1filled R1 world1 H)
    as [stored [Hs [_ [Hc [_ [_ [_ [_ [Hr _]]]]]]]]].
  exists stored. split; [exact Hs |]. split; [exact Hc | exact Hr].
Defined.

(** X19.  [leaveReview] for a uuid that no stored review has changes
    nothing and creates nothing; [get] on that uuid still answers null. *)
Theorem leaveReview_unknown :
  forall (review : Review.t) (w : World),
    ~ In (Review.uuid review) (map Review.uuid (reviewModel w)) ->
    reviewFinal handleReview (ReviewService.leaveReview review) w = w
    /\ reviewResult handleReview (ReviewService.get (Review.uuid review))
         (reviewFinal handleReview (ReviewService.leaveReview review) w)
       = None.
Proof.
  intros review w Hn.
  assert (E : reviewFinal handleReview (ReviewService.leaveReview review) w = w).
  { change (withReviews
              (ReviewModel.updateOne (Review.uuid review) review (reviewModel w)) w
            = w).
    rewrite ReviewModel_updateOne_unknown by exact Hn.
    destruct w. reflexivity. }
  split; [exact E |]. rewrite E.
  change (ReviewModel.findOne (Review.uuid review) (reviewModel w) = None).
  apply ReviewModel_findOne_unknown. exact Hn.
Qed.

Lemma leaveReview_unknown_witness :
  ~ In (Review.uuid R9) (map Review.uuid (reviewModel world1))
  /\ reviewFinal handleReview (ReviewService.leaveReview R9) world1 = world1.
Proof.
  assert (H : ~ In (Review.uuid R9) (map Review.uuid (reviewModel world1))).
  { cbn. intuition discriminate. }
  split; [exact H |].
  apply (leaveReview_unknown R9 world1 H).
Defined.

(** X20.  [leaveReview] never adds or removes a review and never changes a
    uuid: the uuids in the collection are the same, in the same order,
    before and after; the vehicles and the cache are not touched. *)
Theorem leaveReview_uuids_kept :
  forall (review : Review.t) (w : World),
    let w' := reviewFinal handleReview (ReviewService.leaveReview review) w in
    map Review.uuid (reviewModel w') = map Review.uuid (reviewModel w)
    /\ vehicleModel w' = vehicleModel w
    /\ cacheService w' = cacheService w.
Proof.
  intros review w w'. subst w'. repeat split.
  change (map Review.uuid
            (ReviewModel.updateOne (Review.uuid review) review (reviewModel w))
          = map Review.uuid (reviewModel w)).
  apply ReviewModel_updateOne_uuids.
Qed.

(** X21.  [leaveReview review] changes what [get] answers for the uuid of
    [review] only: for every other id the answer is the same before and
    after. *)
Theorem leaveReview_other_reviews :
  forall (review : Review.t) (id : string) (w : World),
    id <> Review.uuid review ->
    reviewResult handleReview (ReviewService.get id)
      (reviewFinal handleReview (ReviewService.leaveReview review) w)
    = reviewResult handleReview (ReviewService.get id) w.
Proof.
  intros review id w Hne.
  change (ReviewModel.findOne id
            (ReviewModel.updateOne (Review.uuid review) review (reviewModel w))
          = ReviewModel.findOne id (reviewModel w)).
  apply ReviewModel_findOne_updateOne_other. exact Hne.
Qed.

Lemma leaveReview_other_reviews_witness :
  Review.uuid R1 <> Review.uuid R9
  /\ reviewResult handleReview (ReviewService.get (Review.uuid R1))
       (reviewFinal handleReview (ReviewService.leaveReview R9) world1)
     = Some R1.
Proof.
  assert (H : Review.uuid R1 <> Review.uuid R9) by discriminate.
  split; [exact H |].
  apply (leaveReview_other_reviews R9 (Review.uuid R1) world1 H).
Defined.

(** X22.  The life of a review.  A request is inserted and then filled in
    by [leaveReview] with the completion flag set, a rate and a comment;
    provided the generated uuid was not in use, [getAllReviews] then answers
    the [pending] array it answered before the request, and the [completed]
    array of before with one more dto, which carries that uuid, rate and
    comment. *)
Theorem review_lifecycle :
  forall (email vehicleId : string) (price q : number) (text : string)
         (w : World),
    let id := guidService w (guidsUsed w) in
    ~ In id (map Review.uuid (reviewModel w)) ->
    let filled :=
      {| Review.uuid := id
       ; Review.email := email
       ; Review.vehicleId := vehicleId
       ; Review.dateOfRide := clock w
       ; Review.price := price
       ; Review.completed := true
       ; Review.rate := Some q
       ; Review.comment := Some text |} in
    let w1 := final handle (insertReviewRequest email vehicleId price) w in
    let w2 := reviewFinal handleReview (ReviewService.leaveReview filled) w1 in
    let before := reviewResult handleReview (ReviewService.getAllReviews email) w in
    let after := reviewResult handleReview (ReviewService.getAllReviews email) w2 in
    pending after = pending before
    /\ exists dto : ReviewDto.t,
         completed after = completed before ++ [dto]
         /\ ReviewDto.uuid dto = id
         /\ ReviewDto.price dto = price
         /\ ReviewDto.rate dto = Some q
         /\ ReviewDto.comment dto = Some text.
Proof.
  intros email vehicleId price q text w id Hn filled w1 w2 before after.
  assert (Hm : reviewModel w2 = reviewModel w ++ [filled]).
  { change (ReviewModel.updateOne (Review.uuid filled) filled
              (reviewModel w
                 ++ [ {| Review.uuid := id
                       ; Review.email := email
                       ; Review.vehicleId := vehicleId
                       ; Review.dateOfRide := clock w
                       ; Review.price := price
                       ; Review.completed := false
                       ; Review.rate := None
                       ; Review.comment := None |} ])
            = reviewModel w ++ [filled]).
    rewrite ReviewModel_updateOne_last; [reflexivity | exact Hn | reflexivity]. }
  assert (Hv : vehicleModel w2 = vehicleModel w) by reflexivity.
  subst after before. rewrite !getAllReviews_World.
  clearbody w2. rewrite Hm, Hv, aggregate_app.
  rewrite aggregate_one by reflexivity.
  rewrite !distribute_fold, !filter_app, !map_app.
  cbn [filter isCompleted Joined.review Review.completed filled negb map
       completed pending app].
  rewrite app_nil_r.
  split; [reflexivity |].
  eexists. split; [reflexivity |]. repeat split.
Qed.

Lemma review_lifecycle_witness :
  ~ In (guidService world1 (guidsUsed world1))
       (map Review.uuid (reviewModel world1))
  /\ map ReviewDto.rate
       (completed
          (reviewResult handleReview
             (ReviewService.getAllReviews "a@x.rs"%string)
             (reviewFinal handleReview
                (ReviewService.leaveReview
                   {| Review.uuid := guidService world1 (guidsUsed world1)
                    ; Review.email := "a@x.rs"%string
                    ; Review.vehicleId := "v2"%string
                    ; Review.dateOfRide := clock world1
                    ; Review.price := 13
                    ; Review.completed := true
                    ; Review.rate := Some 4
                    ; Review.comment := Some "good"%string |})
                (final handle
                   (insertReviewRequest "a@x.rs"%string "v2"%string 13)
                   world1))))
     = [Some 4].
Proof.
  assert (H : ~ In (guidService world1 (guidsUsed world1))
                (map Review.uuid (reviewModel world1))).
  { cbn. intuition discriminate. }
  split; [exact H |].
  pose proof (review_lifecycle "a@x.rs"%string "v2"%string 13 4 "good"%string
                world1 H) as P.
  cbv zeta in P. destruct P as [_ [dto [Hc [_ [_ [Hr _]]]]]].
  etransitivity; [exact (f_equal (map ReviewDto.rate) Hc) |].
  rewrite map_app. cbn [map]. rewrite Hr. reflexivity.
Defined.

(** ** Booking and matching together *)

Lemma upsert_only (v : Vehicle) (es : list (string * Vehicle)) :
  NoDup (map fst es) ->
  Forall (fun e => fst e = uuid (snd e)) es ->
  forall x : Vehicle,
    In x (map snd (CacheService.upsert v es)) -> uuid x = uuid v -> x = v.
Proof.
  induction es as [| [k y] es IH]; cbn; intros Hnd Hk x Hin Hx.
  - destruct Hin as [<- | []]. reflexivity.
  - apply NoDup_cons_iff in Hnd. destruct Hnd as [Hn Hnd].
    apply Forall_cons_iff in Hk. destruct Hk as [Hy Hk]. cbn in Hy.
    destruct (String.eqb k (uuid v)) eqn:E; cbn in Hin.
    + apply String.eqb_eq in E. destruct Hin as [<- | Hin]; [reflexivity |].
      exfalso. apply Hn. apply in_map_iff in Hin. destruct Hin as [e [He Hin]].
      apply in_map_iff. exists e. split; [| exact Hin].
      rewrite Forall_forall in Hk. rewrite (Hk e Hin), He. congruence.
    + destruct Hin as [<- | Hin].
      * rewrite Hy, Hx, String.eqb_refl in E. discriminate.
      * apply IH; assumption.
Qed.

Lemma upsert_keyed (v : Vehicle) (es : list (string * Vehicle)) :
  NoDup (map fst es) /\ Forall (fun e => fst e = uuid (snd e)) es ->
  NoDup (map fst (CacheService.upsert v es))
  /\ Forall (fun e => fst e = uuid (snd e)) (CacheService.upsert v es).
Proof.
  intros [Hnd Hk].
  assert (Hfst : map fst (CacheService.upsert v es) = map fst es
                 \/ (~ In (uuid v) (map fst es)
                     /\ map fst (CacheService.upsert v es)
                        = map fst es ++ [uuid v])).
  { clear Hnd Hk. induction es as [| [k y] es IH]; cbn.
    - right. split; [intros [] | reflexivity].
    - destruct (String.eqb k (uuid v)) eqn:E; cbn; [left; reflexivity |].
      destruct IH as [IH | [Hn IH]]; [left; rewrite IH; reflexivity |].
      right. split; [| rewrite IH; reflexivity].
      intros [Hk | Hin]; [| exact (Hn Hin)].
      rewrite Hk, String.eqb_refl in E. discriminate. }
  split.
  - destruct Hfst as [-> | [Hn ->]]; [exact Hnd |].
    apply NoDup_app; [exact Hnd | repeat constructor; intros [] |].
    intros a Ha [<- | []]. exact (Hn Ha).
  - clear Hnd Hfst. induction es as [| [k y] es IH]; cbn.
    + repeat constructor.
    + apply Forall_cons_iff in Hk. destruct Hk as [Hy Hk].
      destruct (String.eqb k (uuid v)) eqn:E.
      * apply String.eqb_eq in E. constructor; [exact E | exact Hk].
      * constructor; [exact Hy | apply IH, Hk].
Qed.

(** The fresh cache is keyed, and [set] and [addAll] keep it so. *)
Lemma cacheKeyed_fresh : cacheKeyed CacheService.fresh.
Proof. split; constructor. Qed.

Lemma cacheKeyed_set (v : Vehicle) (c : CacheService.t) :
  cacheKeyed c -> cacheKeyed (CacheService.set v c).
Proof. intro H. apply upsert_keyed, H. Qed.

Lemma cacheKeyed_addAll (vehicles : list Vehicle) (c : CacheService.t) :
  cacheKeyed c -> cacheKeyed (CacheService.addAll vehicles c).
Proof.
  unfold cacheKeyed, CacheService.addAll. cbn.
  generalize (CacheService.entries c). clear c.
  induction vehicles as [| v vehicles IH]; intros es H; cbn; [exact H |].
  apply IH, upsert_keyed, H.
Qed.

Lemma updateOne_only (v : Vehicle) (m : VehicleModel.t) :
  NoDup (map uuid m) ->
  forall x : Vehicle,
    In x (VehicleModel.updateOne (uuid v) v m) -> uuid x = uuid v -> x = v.
Proof.
  induction m as [| y m IH]; cbn; intros Hnd x Hin Hx; [destruct Hin |].
  apply NoDup_cons_iff in Hnd. destruct Hnd as [Hn Hnd].
  destruct (String.eqb (uuid y) (uuid v)) eqn:E.
  - apply String.eqb_eq in E. destruct Hin as [<- | Hin]; [reflexivity |].
    exfalso. apply Hn. rewrite E, <- Hx. apply in_map. exact Hin.
  - destruct Hin as [<- | Hin].
    + rewrite Hx, String.eqb_refl in E. discriminate.
    + apply IH; assumption.
Qed.

Lemma offers_unbooked_candidates {W : Type}
    (h : forall X : Type, Cmd X -> W -> X * W)
    (calculateDistance : Position.t -> Position.t -> number)
    (userPosition : Position.t) (vehicles : list Vehicle)
    (count distanceToDestination : number) (w : W) :
  Forall (fun o => In (vehicle o) vehicles /\ booked (vehicle o) = false)
    (result h (findClosestVehicles calculateDistance userPosition vehicles
                 count distanceToDestination) w).
Proof.
  unfold findClosestVehicles.
  apply (closestLoop_Forall h count distanceToDestination (fun _ => True));
    [trivial | | trivial | constructor].
  intros vd w' _ Hin Hb. cbn [offerOf vehicle]. split; [| exact Hb].
  apply (Permutation_in _
           (Permutation_sym (array_sort_Permutation compareDistance _))) in Hin.
  unfold distancesFrom in Hin. apply in_map_iff in Hin.
  destruct Hin as [v [<- Hv]]. exact Hv.
Qed.

(** X23.  A booked vehicle is not offered.  After [book v], the fleet that
    [getAllVehicles] answers, whether it comes from the cache or from the
    storage, gives [findClosestVehicles] no offer with the uuid of [v], for
    every user position and count; the cache holds one entry for each uuid
    and the storage one vehicle for each uuid. *)
Theorem booked_vehicle_not_offered :
  forall (calculateDistance : Position.t -> Position.t -> number)
         (v : Vehicle) (userPosition : Position.t)
         (count distanceToDestination : number) (w : World),
    cacheKeyed (cacheService w) ->
    NoDup (map uuid (vehicleModel w)) ->
    let w1 := final handle (book v) w in
    let vehicles := result handle getAllVehicles w1 in
    let w2 := final handle getAllVehicles w1 in
    Forall (fun o => uuid (vehicle o) <> uuid v)
      (result handle
         (findClosestVehicles calculateDistance userPosition vehicles
            count distanceToDestination) w2).
Proof.
  intros cd v pos count d w [Hc1 Hc2] Hs w1 vehicles w2.
  assert (Honly : forall x, In x vehicles -> uuid x = uuid v -> booked x = true).
  { intros x Hin Hx.
    assert (Hxv : x = setBooked true v); [| rewrite Hxv; reflexivity].
    assert (Hv : vehicles
                 = if CacheService.isEmpty (cacheService w)
                   then VehicleModel.updateOne (uuid v) (setBooked true v)
                          (vehicleModel w)
                   else map snd
                          (CacheService.upsert (setBooked true v)
                             (CacheService.entries (cacheService w)))).
    { subst vehicles w1. unfold result, final, getAllVehicles, book. cbn.
      change (CacheService.isEmpty
                (CacheService.set (setBooked true v) (cacheService w)))
        with (CacheService.isEmpty (cacheService w)).
      destruct (CacheService.isEmpty (cacheService w)); reflexivity. }
    rewrite Hv in Hin.
    destruct (CacheService.isEmpty (cacheService w)).
    - apply (updateOne_only (setBooked true v) (vehicleModel w) Hs x Hin Hx).
    - apply (upsert_only (setBooked true v)
               (CacheService.entries (cacheService w)) Hc1 Hc2 x Hin Hx). }
  clearbody vehicles w2.
  eapply Forall_impl;
    [| apply (offers_unbooked_candidates handle cd pos vehicles count d w2)].
  intros o [Hin Hb] Hx. cbn in Hb, Hin.
  rewrite (Honly _ Hin Hx) in Hb. discriminate.
Qed.

Lemma booked_vehicle_not_offered_witness :
  cacheKeyed (cacheService world0)
  /\ NoDup (map uuid (vehicleModel world0))
  /\ Forall (fun o => uuid (vehicle o) <> uuid V1)
       (result handle
          (findClosestVehicles taxicabDistance rider
             (result handle getAllVehicles (final handle (book V1) world0))
             2 10)
          (final handle getAllVehicles (final handle (book V1) world0))).
Proof.
  assert (H1 : cacheKeyed (cacheService world0)) by (split; constructor).
  assert (H2 : NoDup (map uuid (vehicleModel world0))).
  { cbn. repeat constructor; cbn; intuition discriminate. }
  split; [exact H1 |]. split; [exact H2 |].
  apply (booked_vehicle_not_offered taxicabDistance V1 rider 2 10 world0 H1 H2).
Defined.

(** ** The fleet through the cache *)

Lemma upsert_new (v : Vehicle) (es : list (string * Vehicle)) :
  ~ In (uuid v) (map fst es) -> CacheService.upsert v es = es ++ [(uuid v, v)].
Proof.
  induction es as [| [k y] es IH]; cbn; intro Hn; [reflexivity |].
  destruct (String.eqb k (uuid v)) eqn:E.
  - apply String.eqb_eq in E. destruct Hn. left. exact E.
  - rewrite IH; [reflexivity |]. intro Hin. apply Hn. right. exact Hin.
Qed.

Lemma addAll_new (vehicles : list Vehicle) :
  forall es : list (string * Vehicle),
    NoDup (map uuid vehicles) ->
    (forall v, In v vehicles -> ~ In (uuid v) (map fst es)) ->
    fold_left (fun es v => CacheService.upsert v es) vehicles es
    = es ++ map (fun v => (uuid v, v)) vehicles.
Proof.
  induction vehicles as [| v vehicles IH]; intros es Hnd Hn; cbn.
  - rewrite app_nil_r. reflexivity.
  - apply NoDup_cons_iff in Hnd. destruct Hnd as [Hv Hnd].
    rewrite upsert_new by (apply Hn; left; reflexivity).
    rewrite IH; [rewrite <- app_assoc; reflexivity | exact Hnd |].
    intros x Hx Hin. rewrite map_app in Hin. apply in_app_or in Hin.
    destruct Hin as [Hin | [Hin | []]].
    + apply (Hn x); [right; exact Hx | exact Hin].
    + cbn in Hin. apply Hv. rewrite Hin. apply in_map. exact Hx.
Qed.

(** X24.  Fill once, then serve from memory.  From the fresh cache and a
    storage with one vehicle for each uuid, the first [getAllVehicles]
    answers the stored fleet, and the second answers the same fleet, in the
    same order, without a call on the storage. *)
Theorem getAllVehicles_served_from_cache :
  forall w : World,
    cacheService w = CacheService.fresh ->
    NoDup (map uuid (vehicleModel w)) ->
    let w' := final handle getAllVehicles w in
    result handle getAllVehicles w = vehicleModel w
    /\ result handle getAllVehicles w' = vehicleModel w
    /\ noStorageCall (trace handle getAllVehicles w') = true.
Proof.
  intros [c m rs rm g n cl] Hc Hs. cbn in Hc, Hs. subst c. intro w'.
  assert (Hget : CacheService.getAll (cacheService w') = m).
  { subst w'. unfold final, getAllVehicles. cbn.
    unfold CacheService.getAll, VehicleModel.find. cbn.
    rewrite addAll_new; [| exact Hs | intros v _ Hin; exact Hin].
    cbn. rewrite map_map. cbn. apply map_id. }
  assert (Hl : CacheService.isEmpty (cacheService w') = false) by reflexivity.
  split.
  - reflexivity.
  - clearbody w'. unfold result, trace, getAllVehicles. cbn. rewrite Hl. cbn.
    split; [exact Hget | reflexivity].
Qed.

Lemma getAllVehicles_served_from_cache_witness :
  cacheService world0 = CacheService.fresh
  /\ NoDup (map uuid (vehicleModel world0))
  /\ result handle getAllVehicles (final handle getAllVehicles world0) = fleet.
Proof.
  assert (H1 : cacheService world0 = CacheService.fresh) by reflexivity.
  assert (H2 : NoDup (map uuid (vehicleModel world0))).
  { cbn. repeat constructor; cbn; intuition discriminate. }
  split; [exact H1 |]. split; [exact H2 |].
  apply (getAllVehicles_served_from_cache world0 H1 H2).
Defined.
